(** * GPlay Scraper front ends: the action-dispatch and field-projection layer

    A shallow embedding of [api/index.py] (the serverless request handler)
    and of the event handlers and the execution bridge of
    [examples/ui_app.py] (the Tkinter front end), with the properties of
    the dispatch layer proved over it.

    Conventions of the embedding.
    - A Python [str] is a [string]; a character of the [string] is the code
      point of the same number, so the embedding covers text whose code
      points are below 256.  The character classes used by [str.strip],
      [str.lower] and [int] are the interpreter's, restricted to that range.
    - [request.args] is a finite map from parameter names to raw values.
    - Code that may raise returns a [result]; code that may also call the
      scraper runs in the monad [M], which threads the log of the calls
      issued so far.
    - [Config] and the scraper belong to the [gplay_scraper] package: the
      configuration constants are the fields of a record, and the scraper is
      an oracle giving the outcome of every operation. *)

From Stdlib Require Import ZArith Ascii String List Bool Lia.
From stdpp Require Import base option list strings gmap.

Local Open Scope Z_scope.

(* ================================================================== *)
(** * Python primitives *)
(* ================================================================== *)

Module Py.

(** Exceptions.  [GPlayScraperError] is the package's domain error (with
    its subclasses); [Exception] stands for every other subclass of
    Python's [Exception].  The payload is [str(exc)]. *)
Inductive exn : Type :=
  | GPlayScraperError (msg : string)
  | ValueError (msg : string)
  | NameError (msg : string)
  | Exception (msg : string).

Definition str_exc (e : exn) : string :=
  match e with
  | GPlayScraperError m | ValueError m | NameError m | Exception m => m
  end.

(** The outcome of evaluating an expression: a value, or a raised
    exception. *)
Inductive result (A : Type) : Type :=
  | Ret (a : A)
  | Raise (e : exn).
Arguments Ret {A} a.
Arguments Raise {A} e.

Definition code (c : ascii) : N := N_of_ascii c.

(** [Py_UNICODE_ISSPACE] below 256: TAB..CR, FS..US, space, NEL, NBSP. *)
Definition isspace (c : ascii) : bool :=
  let n := code c in
  ((9 <=? n) && (n <=? 13) || (28 <=? n) && (n <=? 32)
   || (n =? 133) || (n =? 160))%N.

(** The white space [int] skips around a literal: the ASCII white space
    of [Py_ISSPACE], and NEL and NBSP, which the conversion of a non-ASCII
    string turns into a space first. *)
Definition int_isspace (c : ascii) : bool :=
  let n := code c in
  ((9 <=? n) && (n <=? 13) || (n =? 32) || (n =? 133) || (n =? 160))%N.

Definition isdigit (c : ascii) : bool :=
  let n := code c in ((48 <=? n) && (n <=? 57))%N.

Definition digit_value (c : ascii) : Z := Z.of_N (code c) - 48.

(** [str.lower] on one character: A..Z and the capital letters of
    Latin-1 (all of 192..222 but the multiplication sign 215) move up by
    32; every other character is its own lower case. *)
Definition lower_char (c : ascii) : ascii :=
  let n := code c in
  if ((65 <=? n) && (n <=? 90)
      || (192 <=? n) && (n <=? 222) && negb (n =? 215))%N
  then ascii_of_N (n + 32) else c.

Fixpoint lower (s : string) : string :=
  match s with
  | EmptyString => EmptyString
  | String c r => String (lower_char c) (lower r)
  end.

(** Truthiness of a [str]: only the empty string is false. *)
Definition truthy (s : string) : bool :=
  match s with EmptyString => false | String _ _ => true end.

Fixpoint lstrip (s : string) : string :=
  match s with
  | EmptyString => EmptyString
  | String c r => if isspace c then lstrip r else s
  end.

Fixpoint rstrip (s : string) : string :=
  match s with
  | EmptyString => EmptyString
  | String c r =>
      let r' := rstrip r in
      if isspace c && negb (truthy r') then EmptyString else String c r'
  end.

(** [s.strip()] *)
Definition strip (s : string) : string := lstrip (rstrip s).

(** [s.split(sep)] for a one-character separator: one segment more than
    there are separators, so [split sep ""] is [[""]]. *)
Fixpoint split (sep : ascii) (s : string) : list string :=
  match s with
  | EmptyString => [EmptyString]
  | String c r =>
      if Ascii.eqb c sep then EmptyString :: split sep r
      else match split sep r with
           | seg :: segs => String c seg :: segs
           | [] => [String c EmptyString]
           end
  end.

(** [sep.join(l)] *)
Fixpoint join (sep : string) (l : list string) : string :=
  match l with
  | [] => EmptyString
  | [s] => s
  | s :: r => s +:+ sep +:+ join sep r
  end.

(** ** [int(s)]

    The literal is: white space, an optional sign, decimal digits in which
    single underscores may separate digits, white space.  [scan_digits acc
    prev s] reads the digits; [prev] tells whether the character before
    was a digit, and the rest of the string is returned with the value.
    The interpreter's optional cap on the number of digits of a literal
    (a run-time setting, off when set to 0) is not part of the embedding. *)
Fixpoint scan_digits (acc : Z) (prev : bool) (s : string) : option (Z * string) :=
  match s with
  | EmptyString => if prev then Some (acc, EmptyString) else None
  | String c r =>
      if isdigit c then scan_digits (10 * acc + digit_value c) true r
      else if Ascii.eqb c "_" then
        (if prev then scan_digits acc false r else None)
      else if prev then Some (acc, s) else None
  end.

Fixpoint skip_space (s : string) : string :=
  match s with
  | EmptyString => EmptyString
  | String c r => if int_isspace c then skip_space r else s
  end.

Definition invalid_literal (s : string) : exn :=
  ValueError ("invalid literal for int() with base 10: " +:+ s).

Definition int (s : string) : result Z :=
  let body := skip_space s in
  let '(neg, digits) :=
    match body with
    | String "-" r => (true, r)
    | String "+" r => (false, r)
    | _ => (false, body)
    end in
  match scan_digits 0 false digits with
  | Some (v, rest) =>
      if truthy (skip_space rest) then Raise (invalid_literal s)
      else Ret (if neg then - v else v)
  | None => Raise (invalid_literal s)
  end.

(** Membership of a character in a string, and the last character. *)
Fixpoint occurs (c : ascii) (s : string) : Prop :=
  match s with
  | EmptyString => False
  | String c' r => c' = c \/ occurs c r
  end.

Fixpoint last_char (s : string) : option ascii :=
  match s with
  | EmptyString => None
  | String c EmptyString => Some c
  | String _ r => last_char r
  end.

End Py.

Import Py.

(* ================================================================== *)
(** * The serverless endpoint, [api/index.py] *)
(* ================================================================== *)

(** ** The package's configuration and scraper *)

(** [gplay_scraper.config.Config]: the constants the handlers read. *)
Record Config : Type := {
  DEFAULT_LANGUAGE : string;
  DEFAULT_COUNTRY : string;
  DEFAULT_SEARCH_COUNT : Z;
  DEFAULT_REVIEWS_COUNT : Z;
  DEFAULT_DEVELOPER_COUNT : Z;
  DEFAULT_REVIEWS_SORT : string;
}.

(** One invocation of an operation of [GPlayScraper], with its arguments
    in the order of the source.  [assets] is [None] for Python's [None]. *)
Inductive call : Type :=
  | app_analyze (app_id lang country : string) (assets : option string)
  | app_get_fields (app_id : string) (fields : list string)
      (lang country : string) (assets : option string)
  | search_analyze (query : string) (count : Z) (lang country : string)
  | search_get_fields (query : string) (fields : list string) (count : Z)
      (lang country : string)
  | reviews_analyze (app_id : string) (count : Z) (lang country sort : string)
  | reviews_get_fields (app_id : string) (fields : list string) (count : Z)
      (lang country sort : string)
  | developer_analyze (developer_id : string) (count : Z) (lang country : string)
  | developer_get_fields (developer_id : string) (fields : list string)
      (count : Z) (lang country : string).

(** Full analysis or selective: the two kinds of operation. *)
Definition is_analyze (c : call) : bool :=
  match c with
  | app_analyze _ _ _ _ | search_analyze _ _ _ _
  | reviews_analyze _ _ _ _ _ | developer_analyze _ _ _ _ => true
  | _ => false
  end.

Definition is_get_fields (c : call) : bool := negb (is_analyze c).

(** The arguments of a call, by name. *)
Definition call_fields (c : call) : option (list string) :=
  match c with
  | app_get_fields _ f _ _ _ | search_get_fields _ f _ _ _
  | reviews_get_fields _ f _ _ _ _ | developer_get_fields _ f _ _ _ => Some f
  | _ => None
  end.

Definition call_identifier (c : call) : string :=
  match c with
  | app_analyze i _ _ _ | app_get_fields i _ _ _ _
  | search_analyze i _ _ _ | search_get_fields i _ _ _ _
  | reviews_analyze i _ _ _ _ | reviews_get_fields i _ _ _ _ _
  | developer_analyze i _ _ _ | developer_get_fields i _ _ _ _ => i
  end.

Definition call_lang (c : call) : string :=
  match c with
  | app_analyze _ l _ _ | app_get_fields _ _ l _ _
  | search_analyze _ _ l _ | search_get_fields _ _ _ l _
  | reviews_analyze _ _ l _ _ | reviews_get_fields _ _ _ l _ _
  | developer_analyze _ _ l _ | developer_get_fields _ _ _ l _ => l
  end.

Definition call_country (c : call) : string :=
  match c with
  | app_analyze _ _ k _ | app_get_fields _ _ _ k _
  | search_analyze _ _ _ k | search_get_fields _ _ _ _ k
  | reviews_analyze _ _ _ k _ | reviews_get_fields _ _ _ _ k _
  | developer_analyze _ _ _ k | developer_get_fields _ _ _ _ k => k
  end.

Definition call_count (c : call) : option Z :=
  match c with
  | app_analyze _ _ _ _ | app_get_fields _ _ _ _ _ => None
  | search_analyze _ n _ _ | search_get_fields _ _ n _ _
  | reviews_analyze _ n _ _ _ | reviews_get_fields _ _ n _ _ _
  | developer_analyze _ n _ _ | developer_get_fields _ _ n _ _ => Some n
  end.

Definition call_sort (c : call) : option string :=
  match c with
  | reviews_analyze _ _ _ _ s | reviews_get_fields _ _ _ _ _ s => Some s
  | _ => None
  end.

(** [Some None] is an [assets] argument that is Python's [None]. *)
Definition call_assets (c : call) : option (option string) :=
  match c with
  | app_analyze _ _ _ a | app_get_fields _ _ _ _ a => Some a
  | _ => None
  end.

(** The closed set of actions, with the key under which [ACTION_MAP] holds
    each handler and the identifier each handler requires. *)
Inductive action : Type := App | Search | Reviews | Developer.

Definition action_name (a : action) : string :=
  match a with
  | App => "app"
  | Search => "search"
  | Reviews => "reviews"
  | Developer => "developer"
  end.

Definition required_identifier (a : action) : string :=
  match a with
  | App | Reviews => "appId"
  | Search => "query"
  | Developer => "developerId"
  end.

(** The operations that belong to an action. *)
Definition call_action (c : call) : action :=
  match c with
  | app_analyze _ _ _ _ | app_get_fields _ _ _ _ _ => App
  | search_analyze _ _ _ _ | search_get_fields _ _ _ _ _ => Search
  | reviews_analyze _ _ _ _ _ | reviews_get_fields _ _ _ _ _ _ => Reviews
  | developer_analyze _ _ _ _ | developer_get_fields _ _ _ _ _ => Developer
  end.

(** The message of the 400 response of a handler whose identifier is
    missing. *)
Definition missing_required (a : action) : string :=
  "Missing required '" +:+ required_identifier a +:+ "' parameter.".

(** The parameters the handler of an action reads from the request. *)
Definition reads (a : action) : list string :=
  match a with
  | App => ["appId"; "lang"; "country"; "assets"; "fields"]
  | Search => ["query"; "count"; "lang"; "country"; "fields"]
  | Reviews => ["appId"; "count"; "lang"; "country"; "sort"; "fields"]
  | Developer => ["developerId"; "count"; "lang"; "country"; "fields"]
  end.

(** ** Computations that call the scraper *)

Section Endpoint.

(** What the scraper returns: an arbitrary structured value. *)
Context {data : Type}.

(** A value of a [JsonDict]: a string or the scraper's result. *)
Inductive jvalue : Type :=
  | JStr (s : string)
  | JData (d : data).

(** [JsonDict], in insertion order. *)
Definition JsonDict : Type := list (string * jvalue).
Definition HandlerResult : Type := (Z * JsonDict)%type.

Variable cfg : Config.

(** The scraper: the outcome of an operation, which may depend on the
    operations invoked before it. *)
Variable scraper : list call -> call -> result data.

(** [json.dumps(payload, ensure_ascii=False)]: the text it returns for a
    payload, when it returns. *)
Variable json_dumps : JsonDict -> string.

(** The results of the scraper that [json.dumps] does not accept, with the
    exception it raises on them ([TypeError] on a value of a type it
    cannot serialize).  Strings it always accepts. *)
Variable json_refuses : data -> option exn.

(** A computation takes the log of the calls issued so far and gives its
    outcome and the log extended with its own calls. *)
Definition M (A : Type) : Type := list call -> result A * list call.

Definition ret {A} (a : A) : M A := fun log => (Ret a, log).

Definition bind {A B} (m : M A) (k : A -> M B) : M B :=
  fun log =>
    match m log with
    | (Ret a, log') => k a log'
    | (Raise e, log') => (Raise e, log')
    end.

(** A pure expression that may raise. *)
Definition lift {A} (r : result A) : M A := fun log => (r, log).

(** [scraper.op(...)]: the call is logged, its outcome is the oracle's. *)
Definition invoke (c : call) : M data :=
  fun log => (scraper log c, log ++ [c]).

(** [try: m  except ...: h exc] *)
Definition try_except {A} (m : M A) (h : exn -> M A) : M A :=
  fun log =>
    match m log with
    | (Ret a, log') => (Ret a, log')
    | (Raise e, log') => h e log'
    end.

Notation "'do' x <- m ; k" := (bind m (fun x => k))
  (at level 10, x name, m at level 100, k at level 200).
Notation "'do' ' pat <- m ; k" := (bind m (fun x => match x with pat => k end))
  (at level 10, pat pattern, m at level 100, k at level 200).

(** ** The Parameter Normalizer *)

Definition _parse_fields (raw : option string) : list string :=
  match raw with
  | None => []
  | Some raw =>
      if negb (truthy raw) then []
      else strip <$> filter (fun field => truthy (strip field) = true) (split "," raw)
  end.

Definition _parse_int (value : option string) (default : Z) : result Z :=
  match value with
  | None => Ret default
  | Some value =>
      if negb (truthy value) then Ret default
      else match int value with
           | Ret n => Ret n
           | Raise (ValueError _) => Ret default
           | Raise e => Raise e
           end
  end.

(** The integer [_parse_int] returns. *)
Definition count_of (value : option string) (default : Z) : Z :=
  match _parse_int value default with
  | Ret n => n
  | Raise _ => default
  end.

(** [args.get(key, default)] *)
Definition get_default (args : gmap string string) (key default : string) : string :=
  match args !! key with
  | Some v => v
  | None => default
  end.

(** [args.get(key) or None] *)
Definition get_or_None (args : gmap string string) (key : string) : option string :=
  match args !! key with
  | Some v => if truthy v then Some v else None
  | None => None
  end.

(** [not v] for [v = args.get(key)]: [None] and the empty string are
    false. *)
Definition falsy (v : option string) : bool :=
  match v with
  | Some s => negb (truthy s)
  | None => true
  end.

(** [v or ""]: the string an [Optional[str]] holds, the empty string for
    [None]. *)
Definition the (v : option string) : string :=
  match v with
  | Some s => s
  | None => EmptyString
  end.

(** A parameter is present: there, and not the empty string. *)
Definition present (args : gmap string string) (key : string) : Prop :=
  exists v, args !! key = Some v /\ v <> EmptyString.

(** ** The handlers *)

Definition error_payload (msg : string) : JsonDict := [("error", JStr msg)].
Definition data_payload (d : data) : JsonDict := [("data", JData d)].

(** The payload of the 500 response. *)
Definition unexpected (e : exn) : JsonDict :=
  [("error", JStr "Unexpected server error."); ("details", JStr (str_exc e))].

Definition _handle_app (args : gmap string string) : M HandlerResult :=
  let app_id := args !! "appId" in
  if falsy app_id then
    ret (400, error_payload "Missing required 'appId' parameter.")
  else
    let lang := get_default args "lang" (DEFAULT_LANGUAGE cfg) in
    let country := get_default args "country" (DEFAULT_COUNTRY cfg) in
    let assets := get_or_None args "assets" in
    let fields := _parse_fields (args !! "fields") in
    do d <- (match fields with
             | _ :: _ => invoke (app_get_fields (the app_id) fields lang country assets)
             | [] => invoke (app_analyze (the app_id) lang country assets)
             end);
    ret (200, data_payload d).

Definition _handle_search (args : gmap string string) : M HandlerResult :=
  let query := args !! "query" in
  if falsy query then
    ret (400, error_payload "Missing required 'query' parameter.")
  else
    do count <- lift (_parse_int (args !! "count") (DEFAULT_SEARCH_COUNT cfg));
    let lang := get_default args "lang" (DEFAULT_LANGUAGE cfg) in
    let country := get_default args "country" (DEFAULT_COUNTRY cfg) in
    let fields := _parse_fields (args !! "fields") in
    do d <- (match fields with
             | _ :: _ => invoke (search_get_fields (the query) fields count lang country)
             | [] => invoke (search_analyze (the query) count lang country)
             end);
    ret (200, data_payload d).

Definition _handle_reviews (args : gmap string string) : M HandlerResult :=
  let app_id := args !! "appId" in
  if falsy app_id then
    ret (400, error_payload "Missing required 'appId' parameter.")
  else
    do count <- lift (_parse_int (args !! "count") (DEFAULT_REVIEWS_COUNT cfg));
    let lang := get_default args "lang" (DEFAULT_LANGUAGE cfg) in
    let country := get_default args "country" (DEFAULT_COUNTRY cfg) in
    let sort := get_default args "sort" (DEFAULT_REVIEWS_SORT cfg) in
    let fields := _parse_fields (args !! "fields") in
    do d <- (match fields with
             | _ :: _ => invoke (reviews_get_fields (the app_id) fields count lang country sort)
             | [] => invoke (reviews_analyze (the app_id) count lang country sort)
             end);
    ret (200, data_payload d).

Definition _handle_developer (args : gmap string string) : M HandlerResult :=
  let developer_id := args !! "developerId" in
  if falsy developer_id then
    ret (400, error_payload "Missing required 'developerId' parameter.")
  else
    do count <- lift (_parse_int (args !! "count") (DEFAULT_DEVELOPER_COUNT cfg));
    let lang := get_default args "lang" (DEFAULT_LANGUAGE cfg) in
    let country := get_default args "country" (DEFAULT_COUNTRY cfg) in
    let fields := _parse_fields (args !! "fields") in
    do d <- (match fields with
             | _ :: _ => invoke (developer_get_fields (the developer_id) fields count lang country)
             | [] => invoke (developer_analyze (the developer_id) count lang country)
             end);
    ret (200, data_payload d).

Definition ACTION_MAP : gmap string (gmap string string -> M HandlerResult) :=
  <["app" := _handle_app]>
  (<["search" := _handle_search]>
  (<["reviews" := _handle_reviews]>
  (<["developer" := _handle_developer]> ∅))).

(** The entry of [ACTION_MAP] for each action. *)
Definition handler_of (a : action) : gmap string string -> M HandlerResult :=
  match a with
  | App => _handle_app
  | Search => _handle_search
  | Reviews => _handle_reviews
  | Developer => _handle_developer
  end.

(** ** The response *)

(** The triple [(body, status, headers)] the runtime receives. *)
Record response : Type := {
  body : string;
  status : Z;
  headers : gmap string string;
}.

(** The exception [json.dumps] raises on a payload: that of the first
    value it does not accept. *)
Fixpoint refused (payload : JsonDict) : option exn :=
  match payload with
  | [] => None
  | (_, JStr _) :: rest => refused rest
  | (_, JData d) :: rest =>
      match json_refuses d with
      | Some e => Some e
      | None => refused rest
      end
  end.

(** [json.dumps(payload, ensure_ascii=False)], which may raise. *)
Definition dumps (payload : JsonDict) : result string :=
  match refused payload with
  | Some e => Raise e
  | None => Ret (json_dumps payload)
  end.

Definition _build_response (status : Z) (payload : JsonDict)
    (extra_headers : option (gmap string string)) : result response :=
  match dumps payload with
  | Raise e => Raise e
  | Ret body =>
      let headers : gmap string string :=
        <["Content-Type" := "application/json"]>
        (<["Access-Control-Allow-Origin" := "*"]> ∅) in
      (* headers.update(extra_headers): the extra headers win *)
      let headers :=
        match extra_headers with
        | Some extra => if decide (extra = ∅) then headers else extra ∪ headers
        | None => headers
        end in
      Ret {| body := body; status := status; headers := headers |}
  end.

Record request : Type := {
  method : string;
  args : gmap string string;
}.

(** The handler past its pre-flight gate: the action is looked up and its
    handler run inside the [try] statement; the response is built after
    the statement, outside it. *)
Definition dispatch (args : gmap string string) : M response :=
  let action := lower (the (args !! "action")) in
  if negb (truthy action) then
    lift (_build_response 400 (error_payload "Missing 'action' query parameter.") None)
  else
    let handler_fn : option (gmap string string -> M HandlerResult) :=
      ACTION_MAP !! action in
    match handler_fn with
    | None =>
        lift (_build_response 400
                (error_payload ("Unsupported action '" +:+ action +:+ "'.")) None)
    | Some handler_fn =>
        do '(status, payload) <-
          try_except (handler_fn args)
            (fun exc =>
               match exc with
               | GPlayScraperError _ =>
                   ret (502, error_payload (str_exc exc))
               | _ => ret (500, unexpected exc)
               end);
        lift (_build_response status payload None)
    end.

(** Main entry point of the serverless function. *)
Definition handler (request : request) : M response :=
  if String.eqb (method request) "OPTIONS" then
    lift (_build_response 204 []
            (Some (<["Access-Control-Allow-Origin" := "*"]>
                  (<["Access-Control-Allow-Methods" := "GET, OPTIONS"]>
                  (<["Access-Control-Allow-Headers" := "*"]> ∅)))))
  else dispatch (args request).

(** What the [try] statement of the handler and the response built after
    it make of the outcome of a handler. *)
Definition respond (o : result HandlerResult * list call)
    : result response * list call :=
  match o with
  | (Ret (status, payload), log') =>
      (_build_response status payload None, log')
  | (Raise (GPlayScraperError m), log') =>
      (_build_response 502 (error_payload m) None, log')
  | (Raise e, log') => (_build_response 500 (unexpected e) None, log')
  end.

(** The count an action passes on: none for [app]. *)
Definition action_count (a : action) (args : gmap string string) : option Z :=
  match a with
  | App => None
  | Search => Some (count_of (args !! "count") (DEFAULT_SEARCH_COUNT cfg))
  | Reviews => Some (count_of (args !! "count") (DEFAULT_REVIEWS_COUNT cfg))
  | Developer => Some (count_of (args !! "count") (DEFAULT_DEVELOPER_COUNT cfg))
  end.

(** The default count of an action: the constant its handler hands to
    [_parse_int]; none for [app]. *)
Definition default_count (a : action) : option Z :=
  match a with
  | App => None
  | Search => Some (DEFAULT_SEARCH_COUNT cfg)
  | Reviews => Some (DEFAULT_REVIEWS_COUNT cfg)
  | Developer => Some (DEFAULT_DEVELOPER_COUNT cfg)
  end.

(** The headers [_build_response] starts from. *)
Definition base_headers : gmap string string :=
  <["Content-Type" := "application/json"]>
  (<["Access-Control-Allow-Origin" := "*"]> ∅).

(** The response [_build_response status payload None] returns when
    [json.dumps] accepts the payload. *)
Definition built (status : Z) (payload : JsonDict) : response :=
  {| body := json_dumps payload; status := status; headers := base_headers |}.

End Endpoint.

(* ================================================================== *)
(** * The interactive front end, [examples/ui_app.py] *)
(* ================================================================== *)

Module UI.

(** A [tkinter.messagebox] dialog that was shown. *)
Inductive dialog : Type :=
  | showinfo (title message : string)
  | showerror (title message : string).

(** Where a worker thread stands in [task]: before the wrapped call; inside
    an [except ... as exc] clause, after its [root.after]; or past the
    [try] statement. *)
Inductive position : Type :=
  | at_call
  | in_except
  | finished.

(** A worker thread running [task]: the wrapped operation and its
    arguments, the position, and the frame's local variable [exc], which
    the two error callbacks close over.  [None] is an unbound variable. *)
Record thread : Type := {
  target : call;
  pos : position;
  exc : option exn;
}.

Section Bridge.

Context {data : Type}.

Variable scraper : list call -> call -> result data.

(** [json.dumps(data, indent=2, ensure_ascii=False)]: the text, or the
    exception the serializer raises on a result it does not accept
    ([TypeError] on a value of a type it cannot encode). *)
Variable json_dumps : data -> result string.

(** [count_var.get()] on the [tk.IntVar] behind a spin box, as a function
    of the text the spin box holds: the integer, or the [TclError] Tk
    raises on a text that is not a number. *)
Variable intvar_get : string -> result Z.

(** A callback handed to [root.after(0, ...)]: one of the three lambdas
    of [task].  The success callback closes over [data], which is bound
    once; an error callback closes over the variable [exc] of the frame of
    the thread that made it, and reads it when it is called. *)
Inductive callback : Type :=
  | on_success (d : data)
  | on_error (prefix : string) (frame : nat).

(** The presentation context and what it shares with the workers. *)
Record ui : Type := {
  status_var : string;
  result_text : string;
  dialogs : list dialog;
  after_queue : list callback;
  threads : list thread;
  calls : list call;
}.

Definition _set_status (st : ui) (message : string) : ui :=
  {| status_var := message; result_text := result_text st;
     dialogs := dialogs st; after_queue := after_queue st;
     threads := threads st; calls := calls st |}.

Definition _clear_results (st : ui) : ui :=
  {| status_var := status_var st; result_text := EmptyString;
     dialogs := dialogs st; after_queue := after_queue st;
     threads := threads st; calls := calls st |}.

(** [json.dumps], then [result_text.insert("1.0", pretty)] *)
Definition _display_result (st : ui) (d : data) : result ui :=
  match json_dumps d with
  | Ret pretty =>
      Ret {| status_var := status_var st;
             result_text := pretty +:+ result_text st;
             dialogs := dialogs st; after_queue := after_queue st;
             threads := threads st; calls := calls st |}
  | Raise e => Raise e
  end.

Definition show (st : ui) (d : dialog) : ui :=
  {| status_var := status_var st; result_text := result_text st;
     dialogs := dialogs st ++ [d]; after_queue := after_queue st;
     threads := threads st; calls := calls st |}.

Definition _show_error (st : ui) (message : string) : ui :=
  show (_set_status st "Error") (showerror "GPlay Scraper" message).

Definition _handle_success (st : ui) (d : data) : result ui :=
  match _display_result st d with
  | Ret st => Ret (_set_status st "Finished")
  | Raise e => Raise e
  end.

Definition _handle_error (st : ui) (message : string) : ui :=
  _show_error st message.

Definition _split_fields (raw : string) : list string :=
  strip <$> filter (fun field => truthy (strip field) = true) (split "," raw).

(** [threading.Thread(target=task, daemon=True).start()] *)
Definition start_thread (st : ui) (c : call) : ui :=
  {| status_var := status_var st; result_text := result_text st;
     dialogs := dialogs st; after_queue := after_queue st;
     threads := threads st ++ [{| target := c; pos := at_call; exc := None |}];
     calls := calls st |}.

(** [_run_async(func, *args)]; the operation and its arguments are the
    [call]. *)
Definition _run_async (st : ui) (c : call) : ui :=
  let st := _set_status st "Running..." in
  let st := _clear_results st in
  start_thread st c.

(** *** The event handlers of the Get Fields buttons *)

Definition fields_required : dialog :=
  showinfo "Fields Required" "Please provide at least one field name.".

Definition _handle_app_fields (st : ui) (app_id : string) (fields : list string)
    (lang country : string) (assets : option string) : ui :=
  match fields with
  | [] => show st fields_required
  | _ :: _ => _run_async st (app_get_fields app_id fields lang country assets)
  end.

Definition _handle_search_fields (st : ui) (query : string) (fields : list string)
    (count : Z) (lang country : string) : ui :=
  match fields with
  | [] => show st fields_required
  | _ :: _ => _run_async st (search_get_fields query fields count lang country)
  end.

Definition _handle_reviews_fields (st : ui) (app_id : string) (fields : list string)
    (count : Z) (lang country sort : string) : ui :=
  match fields with
  | [] => show st fields_required
  | _ :: _ =>
      _run_async st (reviews_get_fields app_id fields count lang country sort)
  end.

Definition _handle_developer_fields (st : ui) (dev_id : string)
    (fields : list string) (count : Z) (lang country : string) : ui :=
  match fields with
  | [] => show st fields_required
  | _ :: _ => _run_async st (developer_get_fields dev_id fields count lang country)
  end.

(** The commands of the four Get Fields buttons, once their arguments are
    evaluated: the texts of the entry widgets and, where the tab has a
    count, the integer [count_var.get()] returned. *)
Inductive get_fields_click : Type :=
  | click_app (app_id fields_text lang country assets : string)
  | click_search (query fields_text : string) (count : Z) (lang country : string)
  | click_reviews (app_id fields_text : string) (count : Z)
      (lang country sort : string)
  | click_developer (dev_id fields_text : string) (count : Z)
      (lang country : string).

Definition fields_text (k : get_fields_click) : string :=
  match k with
  | click_app _ f _ _ _ | click_search _ f _ _ _
  | click_reviews _ f _ _ _ _ | click_developer _ f _ _ _ => f
  end.

Definition on_get_fields (st : ui) (k : get_fields_click) : ui :=
  match k with
  | click_app app_id f lang country assets =>
      _handle_app_fields st app_id (_split_fields f) lang country
        (if truthy assets then Some assets else None)
  | click_search query f count lang country =>
      _handle_search_fields st query (_split_fields f) count lang country
  | click_reviews app_id f count lang country sort =>
      _handle_reviews_fields st app_id (_split_fields f) count lang country sort
  | click_developer dev_id f count lang country =>
      _handle_developer_fields st dev_id (_split_fields f) count lang country
  end.

(** *** The worker and the main loop *)

Definition set_thread (st : ui) (i : nat) (t : thread) : ui :=
  {| status_var := status_var st; result_text := result_text st;
     dialogs := dialogs st; after_queue := after_queue st;
     threads := <[i := t]> (threads st); calls := calls st |}.

(** [root.after(0, cb)] *)
Definition after (st : ui) (cb : callback) : ui :=
  {| status_var := status_var st; result_text := result_text st;
     dialogs := dialogs st; after_queue := after_queue st ++ [cb];
     threads := threads st; calls := calls st |}.

Definition log_call (st : ui) (c : call) : ui :=
  {| status_var := status_var st; result_text := result_text st;
     dialogs := dialogs st; after_queue := after_queue st;
     threads := threads st; calls := calls st ++ [c] |}.

(** One step of worker [i] in [task].  From [at_call] it runs
    [func( *args)] and the clause the outcome selects, up to and with that
    clause's [root.after]; an [except] clause has bound [exc] by then.
    From [in_except] it leaves the clause, which unbinds [exc]. *)
Definition worker_step (st : ui) (i : nat) : option ui :=
  match threads st !! i with
  | Some t =>
      match pos t with
      | at_call =>
          let outcome := scraper (calls st) (target t) in
          let st := log_call st (target t) in
          match outcome with
          | Ret d =>
              let st := after st (on_success d) in
              Some (set_thread st i
                      {| target := target t; pos := finished; exc := None |})
          | Raise e =>
              let prefix :=
                match e with
                | GPlayScraperError _ => "Scraper error: "
                | _ => "Unexpected error: "
                end in
              let st := set_thread st i
                          {| target := target t; pos := in_except; exc := Some e |} in
              Some (after st (on_error prefix i))
          end
      | in_except =>
          Some (set_thread st i
                  {| target := target t; pos := finished; exc := None |})
      | finished => None
      end
  | None => None
  end.

(** The callback worker [i] makes of the outcome of the wrapped call. *)
Definition callback_of (i : nat) (o : result data) : callback :=
  match o with
  | Ret d => on_success d
  | Raise (GPlayScraperError _) => on_error "Scraper error: " i
  | Raise _ => on_error "Unexpected error: " i
  end.

(** Reading the closed-over [exc] in a callback. *)
Definition read_exc (st : ui) (frame : nat) : result exn :=
  match threads st !! frame with
  | Some {| exc := Some e |} => Ret e
  | _ =>
      Raise (NameError
        "cannot access free variable 'exc' where it is not associated with a value in enclosing scope")
  end.

(** Calling a callback on the presentation context.  A callback that
    raises has changed nothing by then: the success callback raises in
    [json.dumps], before the viewer and the status are written, and an
    error callback raises when it reads [exc]. *)
Definition run_callback (st : ui) (cb : callback) : result unit * ui :=
  match cb with
  | on_success d =>
      match _handle_success st d with
      | Ret st' => (Ret tt, st')
      | Raise e => (Raise e, st)
      end
  | on_error prefix frame =>
      match read_exc st frame with
      | Ret e => (Ret tt, _handle_error st (prefix +:+ str_exc e))
      | Raise err => (Raise err, st)
      end
  end.

(** One turn of the main loop: the oldest pending callback is taken off
    the queue and called. *)
Definition mainloop_step (st : ui) : option (result unit * ui) :=
  match after_queue st with
  | cb :: rest =>
      Some (run_callback
              {| status_var := status_var st; result_text := result_text st;
                 dialogs := dialogs st; after_queue := rest;
                 threads := threads st; calls := calls st |} cb)
  | [] => None
  end.

(** The interleavings of the workers and the main loop. *)
Inductive step : ui -> ui -> Prop :=
  | step_worker st i st' :
      worker_step st i = Some st' -> step st st'
  | step_mainloop st r st' :
      mainloop_step st = Some (r, st') -> step st st'.

Definition initial : ui :=
  {| status_var := "Ready"; result_text := EmptyString; dialogs := [];
     after_queue := []; threads := []; calls := [] |}.

(** *** The analysis buttons and the system as a whole *)

(** The commands of the four analysis buttons (Analyze App, Search Apps,
    Get Reviews, List Apps), once their arguments are evaluated: the texts
    of the entry widgets and, where the tab has a count, the integer
    [count_var.get()] returned. *)
Inductive analyze_click : Type :=
  | click_analyze_app (app_id lang country assets : string)
  | click_search_apps (query : string) (count : Z) (lang country : string)
  | click_get_reviews (app_id : string) (count : Z) (lang country sort : string)
  | click_list_apps (dev_id : string) (count : Z) (lang country : string).

Definition on_analyze (st : ui) (k : analyze_click) : ui :=
  match k with
  | click_analyze_app app_id lang country assets =>
      _run_async st
        (app_analyze app_id lang country
           (if truthy assets then Some assets else None))
  | click_search_apps query count lang country =>
      _run_async st (search_analyze query count lang country)
  | click_get_reviews app_id count lang country sort =>
      _run_async st (reviews_analyze app_id count lang country sort)
  | click_list_apps dev_id count lang country =>
      _run_async st (developer_analyze dev_id count lang country)
  end.

(** The operation an analysis button runs. *)
Definition analyze_call (k : analyze_click) : call :=
  match k with
  | click_analyze_app app_id lang country assets =>
      app_analyze app_id lang country
        (if truthy assets then Some assets else None)
  | click_search_apps query count lang country =>
      search_analyze query count lang country
  | click_get_reviews app_id count lang country sort =>
      reviews_analyze app_id count lang country sort
  | click_list_apps dev_id count lang country =>
      developer_analyze dev_id count lang country
  end.

(** The command of any of the eight buttons, once its arguments are
    evaluated. *)
Inductive click : Type :=
  | analyze (k : analyze_click)
  | get_fields (k : get_fields_click).

Definition on_click (st : ui) (k : click) : ui :=
  match k with
  | analyze k => on_analyze st k
  | get_fields k => on_get_fields st k
  end.

(** A press of one of the eight buttons, with the texts its tab's widgets
    hold at that moment.  The count is the text of the spin box, which the
    user may have typed. *)
Inductive press : Type :=
  | press_analyze_app (app_id lang country assets : string)
  | press_search_apps (query count lang country : string)
  | press_get_reviews (app_id count lang country sort : string)
  | press_list_apps (dev_id count lang country : string)
  | press_app_fields (app_id fields_text lang country assets : string)
  | press_search_fields (query fields_text count lang country : string)
  | press_reviews_fields (app_id fields_text count lang country sort : string)
  | press_developer_fields (dev_id fields_text count lang country : string).

(** The text of the spin box of the button's tab; the App tab has none. *)
Definition count_text (p : press) : option string :=
  match p with
  | press_analyze_app _ _ _ _ | press_app_fields _ _ _ _ _ => None
  | press_search_apps _ n _ _ | press_get_reviews _ n _ _ _
  | press_list_apps _ n _ _ | press_search_fields _ _ n _ _
  | press_reviews_fields _ _ n _ _ _ | press_developer_fields _ _ n _ _ =>
      Some n
  end.

(** The fields text of a Get Fields button. *)
Definition press_fields_text (p : press) : option string :=
  match p with
  | press_app_fields _ f _ _ _ | press_search_fields _ f _ _ _
  | press_reviews_fields _ f _ _ _ _ | press_developer_fields _ f _ _ _ =>
      Some f
  | _ => None
  end.

(** The arguments of a button's command are evaluated before the command
    is called: every [StringVar.get()] returns the text, and
    [count_var.get()] returns the integer or raises. *)
Definition read_press (p : press) : result click :=
  match p with
  | press_analyze_app app_id lang country assets =>
      Ret (analyze (click_analyze_app app_id lang country assets))
  | press_search_apps query n lang country =>
      match intvar_get n with
      | Ret count => Ret (analyze (click_search_apps query count lang country))
      | Raise e => Raise e
      end
  | press_get_reviews app_id n lang country sort =>
      match intvar_get n with
      | Ret count =>
          Ret (analyze (click_get_reviews app_id count lang country sort))
      | Raise e => Raise e
      end
  | press_list_apps dev_id n lang country =>
      match intvar_get n with
      | Ret count => Ret (analyze (click_list_apps dev_id count lang country))
      | Raise e => Raise e
      end
  | press_app_fields app_id f lang country assets =>
      Ret (get_fields (click_app app_id f lang country assets))
  | press_search_fields query f n lang country =>
      match intvar_get n with
      | Ret count => Ret (get_fields (click_search query f count lang country))
      | Raise e => Raise e
      end
  | press_reviews_fields app_id f n lang country sort =>
      match intvar_get n with
      | Ret count =>
          Ret (get_fields (click_reviews app_id f count lang country sort))
      | Raise e => Raise e
      end
  | press_developer_fields dev_id f n lang country =>
      match intvar_get n with
      | Ret count =>
          Ret (get_fields (click_developer dev_id f count lang country))
      | Raise e => Raise e
      end
  end.

(** The lambda of a button: when an argument raises, the command is not
    called and the exception leaves the lambda. *)
Definition on_press (st : ui) (p : press) : result unit * ui :=
  match read_press p with
  | Ret k => (Ret tt, on_click st k)
  | Raise e => (Raise e, st)
  end.

(** A worker as [start_thread] makes it. *)
Definition fresh (c : call) : thread :=
  {| target := c; pos := at_call; exc := None |}.

(** The number of workers that are past the wrapped call. *)
Fixpoint called (l : list thread) : nat :=
  match l with
  | [] => 0%nat
  | t :: r =>
      match pos t with
      | at_call => called r
      | _ => S (called r)
      end
  end.

(** The transitions of the whole front end: the user presses a button, a
    worker advances, or the main loop calls a queued callback. *)
Inductive transition : ui -> ui -> Prop :=
  | transition_press st p :
      transition st (snd (on_press st p))
  | transition_worker st i st' :
      worker_step st i = Some st' -> transition st st'
  | transition_mainloop st r st' :
      mainloop_step st = Some (r, st') -> transition st st'.

(** What holds of a state of the front end however it was reached: every
    worker past its call has made one call; no more callbacks are pending
    than calls were made; [exc] is bound exactly inside an [except]
    clause; and an error callback closes over the frame of a worker that
    exists. *)
Definition consistent (st : ui) : Prop :=
  length (calls st) = called (threads st) /\
  (length (after_queue st) <= called (threads st))%nat /\
  Forall (fun t => exc t <> None <-> pos t = in_except) (threads st) /\
  Forall (fun cb =>
            match cb with
            | on_success _ => True
            | on_error _ i => (i < length (threads st))%nat
            end) (after_queue st).

End Bridge.

End UI.

(* ================================================================== *)
(** * A stub service *)
(* ================================================================== *)

(** The value of a decimal numeral, most significant digit first. *)
Definition numeral_value (ds : list ascii) : Z :=
  fold_left (fun acc c => 10 * acc + digit_value c) ds 0.

(** A configuration, a scraper and a serializer to run the handlers on:
    the scraper fails with a domain error on the identifier ["missing"],
    with another exception on ["crash"], and answers the identifier
    otherwise. *)
Module Stub.

Definition config : Config :=
  {| DEFAULT_LANGUAGE := "en"; DEFAULT_COUNTRY := "us";
     DEFAULT_SEARCH_COUNT := 100; DEFAULT_REVIEWS_COUNT := 50;
     DEFAULT_DEVELOPER_COUNT := 25; DEFAULT_REVIEWS_SORT := "NEWEST" |}.

Definition scraper (log : list call) (c : call) : result string :=
  if String.eqb (call_identifier c) "missing" then
    Raise (GPlayScraperError "App not found")
  else if String.eqb (call_identifier c) "crash" then
    Raise (Exception "connection reset")
  else Ret (call_identifier c).

Definition show_value (v : @jvalue string) : string :=
  match v with
  | JStr s => s
  | JData d => d
  end.

Fixpoint json_dumps (payload : @JsonDict string) : string :=
  match payload with
  | [] => EmptyString
  | (k, v) :: rest => k +:+ "=" +:+ show_value v +:+ ";" +:+ json_dumps rest
  end.

(** The serializer refuses the result ["bytes"]. *)
Definition json_refuses (d : string) : option exn :=
  if String.eqb d "bytes" then
    Some (Exception "Object of type bytes is not JSON serializable")
  else None.

Definition query (l : list (string * string)) : gmap string string :=
  list_to_map l.

(** The serializer of the front end's result viewer. *)
Definition pretty (d : string) : result string := Ret d.

(** The spin box reads the decimal integers. *)
Definition intvar_get (text : string) : result Z :=
  match int text with
  | Ret n => Ret n
  | Raise _ => Raise (Exception ("expected floating-point number but got " +:+ text))
  end.

(** The front end after a click on Analyze App for an app the stub does
    not know. *)
Definition clicked : @UI.ui string :=
  UI.on_click UI.initial
    (UI.analyze (UI.click_analyze_app "missing" "en" "us" "")).

End Stub.

(** Unfolding the updates of the front end's state. *)
Ltac ui_unfold :=
  unfold UI.after, UI.set_thread, UI.log_call, UI._run_async, UI.start_thread,
    UI._clear_results, UI._set_status;
  cbn.

(* ================================================================== *)
(** * Properties of the primitives *)
(* ================================================================== *)

(** A few evaluations of the primitives. *)
Example strip_example : strip (" b" +:+ String (ascii_of_N 9) " ") = "b".
Proof. reflexivity. Qed.

Example split_example : split "," "a,, b ,a" = ["a"; ""; " b "; "a"].
Proof. reflexivity. Qed.

Example int_examples :
  int "20" = Ret 20 /\ int " -7 " = Ret (-7) /\ int "+1_000" = Ret 1000 /\
  int "0" = Ret 0 /\
  int "abc" = Raise (invalid_literal "abc") /\
  int "" = Raise (invalid_literal "") /\
  int "1__0" = Raise (invalid_literal "1__0") /\
  int "- 5" = Raise (invalid_literal "- 5") /\
  int "12a" = Raise (invalid_literal "12a").
Proof. repeat split; reflexivity. Qed.

Example lower_examples :
  lower "APP" = "app" /\ lower "Search" = "search" /\ lower "foo_1" = "foo_1".
Proof. repeat split; reflexivity. Qed.

Section Strings.

Implicit Types (s r : string) (c sep : ascii).

Lemma append_cons c s r : String c s +:+ r = String c (s +:+ r).
Proof. reflexivity. Qed.

Lemma append_empty s : EmptyString +:+ s = s.
Proof. reflexivity. Qed.

Lemma truthy_false s : truthy s = false <-> s = EmptyString.
Proof. destruct s; simpl; split; congruence. Qed.

Lemma truthy_true s : truthy s = true <-> s <> EmptyString.
Proof. destruct s; simpl; split; congruence. Qed.

Lemma split_not_nil sep s : split sep s <> [].
Proof.
  destruct s as [|c r]; simpl; [discriminate|].
  destruct (Ascii.eqb c sep); [discriminate|].
  destruct (split sep r); discriminate.
Qed.

(** Joining the segments with the separator gives the string back. *)
Lemma join_split sep s : join (String sep EmptyString) (split sep s) = s.
Proof.
  induction s as [|c r IH]; simpl; [reflexivity|].
  destruct (Ascii.eqb_spec c sep) as [->|Hne].
  - pose proof (split_not_nil sep r) as Hnil.
    destruct (split sep r) as [|seg segs]; [congruence|].
    simpl in *. now rewrite IH.
  - pose proof (split_not_nil sep r) as Hnil.
    destruct (split sep r) as [|seg segs]; [congruence|].
    destruct segs as [|seg' segs]; simpl in *; now rewrite <- IH.
Qed.

(** No segment holds the separator. *)
Lemma split_no_sep sep s : Forall (fun seg => ~ occurs sep seg) (split sep s).
Proof.
  induction s as [|c r IH]; simpl.
  - constructor; [tauto | constructor].
  - destruct (Ascii.eqb_spec c sep) as [->|Hne].
    + constructor; [simpl; tauto | exact IH].
    + destruct (split sep r) as [|seg segs]; simpl.
      * constructor; [simpl; tauto | constructor].
      * inversion IH; subst. constructor; [simpl; tauto | assumption].
Qed.

(** [lstrip] removes a prefix of white space and stops at the first
    character that is not. *)
Lemma lstrip_spec s :
  exists ws, s = ws +:+ lstrip s /\
    (forall c, occurs c ws -> isspace c = true) /\
    match lstrip s with
    | EmptyString => True
    | String c _ => isspace c = false
    end.
Proof.
  induction s as [|c r (ws & Heq & Hws & Hhd)]; simpl.
  - exists EmptyString. simpl. tauto.
  - destruct (isspace c) eqn:Hc.
    + exists (String c ws). rewrite append_cons, <- Heq. split; [reflexivity|].
      split; [|exact Hhd]. intros c' [<-|H]; [exact Hc | now apply Hws].
    + exists EmptyString. simpl. tauto.
Qed.

(** [rstrip] removes a suffix of white space and stops at the last
    character that is not. *)
Lemma rstrip_spec s :
  exists ws, s = rstrip s +:+ ws /\
    (forall c, occurs c ws -> isspace c = true) /\
    match last_char (rstrip s) with
    | None => rstrip s = EmptyString
    | Some c => isspace c = false
    end.
Proof.
  induction s as [|c r (ws & Heq & Hws & Hlast)].
  - exists EmptyString. simpl. tauto.
  - cbn [rstrip]. destruct (rstrip r) as [|c' r'] eqn:Hr.
    + rewrite append_empty in Heq. subst ws. cbn [truthy negb].
      rewrite andb_true_r. destruct (isspace c) eqn:Hc.
      * exists (String c r). rewrite append_empty. split; [reflexivity|].
        split; [|reflexivity]. intros c0 [<-|H]; [exact Hc | now apply Hws].
      * exists r. rewrite append_cons, append_empty. split; [reflexivity|].
        split; [exact Hws | exact Hc].
    + cbn [truthy negb]. rewrite andb_false_r. exists ws.
      rewrite append_cons, <- Heq. split; [reflexivity|].
      split; [exact Hws|].
      change (last_char (String c (String c' r'))) with (last_char (String c' r')).
      destruct (last_char (String c' r')); [exact Hlast | discriminate].
Qed.

Lemma lstrip_last s :
  lstrip s <> EmptyString -> last_char (lstrip s) = last_char s.
Proof.
  induction s as [|c r IH]; simpl; [tauto|].
  destruct (isspace c) eqn:Hc; [|reflexivity].
  intros H. rewrite (IH H). destruct r; [simpl in H; congruence | reflexivity].
Qed.

(** A stripped string neither starts nor ends with white space. *)
Lemma strip_spec s :
  match strip s with
  | EmptyString => True
  | String c _ => isspace c = false
  end /\
  match last_char (strip s) with
  | None => strip s = EmptyString
  | Some c => isspace c = false
  end.
Proof.
  unfold strip. split.
  - destruct (lstrip_spec (rstrip s)) as (_ & _ & _ & H). exact H.
  - destruct (rstrip_spec s) as (_ & _ & _ & H).
    destruct (lstrip (rstrip s)) eqn:Hl; [reflexivity|].
    rewrite <- Hl, lstrip_last by congruence. 
    destruct (last_char (rstrip s)); [exact H|].
    rewrite H in Hl. discriminate.
Qed.

Lemma occurs_app c s r : occurs c (s +:+ r) <-> occurs c s \/ occurs c r.
Proof.
  induction s as [|c' s IH]; [rewrite append_empty; simpl; tauto|].
  rewrite append_cons. simpl. rewrite IH. tauto.
Qed.

(** Stripping adds no character. *)
Lemma occurs_strip c s : occurs c (strip s) -> occurs c s.
Proof.
  unfold strip. intros H.
  destruct (rstrip_spec s) as (ws & Heq & _).
  destruct (lstrip_spec (rstrip s)) as (ws' & Heq' & _).
  rewrite Heq, occurs_app. left. rewrite Heq', occurs_app. now right.
Qed.

(** The comprehension filters on the stripped segment and then strips it:
    the same list as stripping every segment and dropping the empty
    ones. *)
Lemma comprehension_strip (l : list string) :
  strip <$> filter (fun field => truthy (strip field) = true) l
  = filter (fun s => s <> EmptyString) (strip <$> l).
Proof.
  induction l as [|x l IH]; [reflexivity|].
  rewrite fmap_cons, !filter_cons.
  destruct (decide (truthy (strip x) = true)) as [H|H];
    destruct (decide (strip x <> EmptyString)) as [H'|H'].
  - now rewrite fmap_cons, IH.
  - apply truthy_true in H. contradiction.
  - apply truthy_true in H'. contradiction.
  - exact IH.
Qed.

Lemma lstrip_blank s :
  (forall c, occurs c s -> isspace c = true) -> lstrip s = EmptyString.
Proof.
  induction s as [|c r IH]; intros Hall; simpl; [reflexivity|].
  rewrite (Hall c) by (simpl; tauto). apply IH.
  intros c' Hc'. apply Hall. simpl. tauto.
Qed.

(** A string of white space strips to the empty string. *)
Lemma strip_blank s :
  (forall c, occurs c s -> isspace c = true) -> strip s = EmptyString.
Proof.
  intros Hall. unfold strip. apply lstrip_blank. intros c Hc. apply Hall.
  destruct (rstrip_spec s) as (ws & Heq & _).
  rewrite Heq, occurs_app. now left.
Qed.

(** The characters of a segment are characters of the string. *)
Lemma occurs_split sep c s (seg : string) :
  seg ∈ split sep s -> occurs c seg -> occurs c s.
Proof.
  revert seg. induction s as [|c' r IH]; intros seg Hin Hocc; simpl in Hin.
  - apply list_elem_of_singleton in Hin. now subst seg.
  - destruct (Ascii.eqb c' sep).
    + apply elem_of_cons in Hin as [-> | Hin]; [contradiction|].
      simpl. right. exact (IH _ Hin Hocc).
    + destruct (split sep r) as [|seg0 segs].
      * apply list_elem_of_singleton in Hin. subst seg.
        simpl in Hocc |- *. tauto.
      * apply elem_of_cons in Hin as [-> | Hin].
        -- simpl in Hocc |- *. destruct Hocc as [H|H]; [now left|].
           right. apply (IH seg0); [left | exact H].
        -- simpl. right. apply (IH seg); [now right | exact Hocc].
Qed.

(** Of a string of separators and white space no segment is left. *)
Lemma fields_blank sep s :
  (forall c, occurs c s -> c = sep \/ isspace c = true) ->
  filter (fun f => f <> EmptyString) (strip <$> split sep s) = [].
Proof.
  intros Hall.
  assert (Hseg : Forall (fun seg => strip seg = EmptyString) (split sep s)).
  { pose proof (split_no_sep sep s) as Hno. rewrite Forall_forall in Hno.
    apply Forall_forall. intros seg Hin. apply strip_blank. intros c Hc.
    destruct (Hall c (occurs_split sep c s seg Hin Hc)) as [-> | H]; [|exact H].
    destruct (Hno seg Hin Hc). }
  induction Hseg as [|seg segs Hs _ IH]; [reflexivity|].
  rewrite fmap_cons, filter_cons, Hs.
  destruct (decide (EmptyString <> EmptyString)); [congruence | exact IH].
Qed.

(** [lower] is idempotent. *)
Lemma lower_char_idemp c : lower_char (lower_char c) = lower_char c.
Proof. destruct c as [[] [] [] [] [] [] [] []]; reflexivity. Qed.

Lemma lower_idemp s : lower (lower s) = lower s.
Proof. induction s as [|c r IH]; simpl; [reflexivity|]. now rewrite lower_char_idemp, IH. Qed.

Lemma lower_empty s : lower s = EmptyString <-> s = EmptyString.
Proof. destruct s; simpl; split; congruence. Qed.

(** [int] raises nothing but [ValueError]. *)
Lemma int_raises s e : int s = Raise e -> e = invalid_literal s.
Proof.
  unfold int. destruct (skip_space s) as [|c r].
  - simpl. congruence.
  - set (p := match String c r with
              | String "-" r0 => (true, r0)
              | String "+" r0 => (false, r0)
              | _ => (false, String c r)
              end).
    destruct p as [neg digits].
    destruct (scan_digits 0 false digits) as [[v rest]|]; [|congruence].
    destruct (truthy (skip_space rest)); congruence.
Qed.

Lemma scan_digits_numeral (ds : list ascii) : forall acc prev,
  forallb isdigit ds = true ->
  ds <> [] \/ prev = true ->
  scan_digits acc prev (string_of_list_ascii ds)
  = Some (fold_left (fun a c => 10 * a + digit_value c) ds acc, EmptyString).
Proof.
  induction ds as [|d ds IH]; intros acc prev Hd Hne; simpl.
  - destruct Hne as [H| ->]; [congruence | reflexivity].
  - simpl in Hd. apply andb_true_iff in Hd as [Hd Hds].
    rewrite Hd. apply IH; [exact Hds | now right].
Qed.

Lemma digit_not_space c : isdigit c = true -> int_isspace c = false.
Proof. destruct c as [[] [] [] [] [] [] [] []]; vm_compute; congruence. Qed.

Lemma digit_not_sign c r :
  isdigit c = true ->
  match String c r with
  | String "-" r0 => (true, r0)
  | String "+" r0 => (false, r0)
  | _ => (false, String c r)
  end = (false, String c r).
Proof. destruct c as [[] [] [] [] [] [] [] []]; vm_compute; congruence. Qed.

(** Every non-empty string of decimal digits is a literal of its value;
    with a minus sign in front, of the opposite.  This is [int] without
    the interpreter's limit on the length of a numeral: under the default
    limit the builtin raises [ValueError] on more than 4300 digits. *)
Lemma int_numeral (ds : list ascii) :
  ds <> [] -> forallb isdigit ds = true ->
  int (string_of_list_ascii ds) = Ret (numeral_value ds) /\
  int (String "-" (string_of_list_ascii ds)) = Ret (- numeral_value ds).
Proof.
  intros Hne Hd. unfold int, numeral_value. split.
  - destruct ds as [|d ds]; [congruence|].
    pose proof Hd as Hd'. simpl in Hd'. apply andb_true_iff in Hd' as [Hd0 _].
    change (string_of_list_ascii (d :: ds)) with (String d (string_of_list_ascii ds)).
    cbn [skip_space]. rewrite (digit_not_space _ Hd0).
    rewrite (digit_not_sign _ _ Hd0).
    change (String d (string_of_list_ascii ds)) with (string_of_list_ascii (d :: ds)).
    rewrite scan_digits_numeral by (auto; left; congruence).
    reflexivity.
  - cbn [skip_space]. 
    replace (int_isspace "-") with false by reflexivity.
    rewrite scan_digits_numeral by auto.
    reflexivity.
Qed.

End Strings.

(* ================================================================== *)
(** * The Parameter Normalizer *)
(* ================================================================== *)

Section Normalizer.

(** The front end's [_split_fields] is the endpoint's [_parse_fields] on a
    string that is present. *)
Lemma split_fields_parse_fields (raw : string) :
  UI._split_fields raw = _parse_fields (Some raw).
Proof.
  unfold UI._split_fields, _parse_fields.
  destruct raw as [|c r]; reflexivity.
Qed.

(** Every field name that comes out is non-empty, neither starts nor ends
    with white space, and holds no comma. *)
Lemma parse_fields_clean (raw : option string) :
  Forall (fun f =>
            f <> EmptyString /\ ~ occurs "," f /\
            (forall c r, f = String c r -> isspace c = false) /\
            (forall c, last_char f = Some c -> isspace c = false))
    (_parse_fields raw).
Proof.
  unfold _parse_fields. destruct raw as [raw|]; [|constructor].
  destruct (truthy raw); [|constructor]. cbn [negb].
  apply Forall_fmap, Forall_forall. intros seg Hin.
  apply list_elem_of_filter in Hin as [Hne Hin]. cbn.
  split; [now apply truthy_true|]. split.
  - intros Hocc. apply occurs_strip in Hocc.
    pose proof (split_no_sep "," raw) as Hall.
    rewrite Forall_forall in Hall. exact (Hall _ Hin Hocc).
  - destruct (strip_spec seg) as [Hhd Hlast]. split.
    + intros c r Heq. now rewrite Heq in Hhd.
    + intros c Heq. now rewrite Heq in Hlast.
Qed.

(** C4, as the claim gives it: on ["a,, b ,a"] the result is not
    [["a"; "b"]], the second ["a"] is kept. *)
Lemma parse_fields_not_deduplicated :
  _parse_fields (Some "a,, b ,a") <> ["a"; "b"].
Proof. vm_compute. discriminate. Qed.

(** C4, amended: field-list parsing splits the raw string on commas, trims
    each segment, drops the segments that are empty after trimming and
    keeps the others in their order, duplicates included; absent input
    gives the empty list; on ["a,, b ,a"] the result is [["a"; "b"; "a"]].
    The front end's [_split_fields] computes the same list. *)
Theorem parse_fields_spec :
  _parse_fields None = [] /\
  (forall raw : string,
     _parse_fields (Some raw)
     = filter (fun s => s <> EmptyString) (strip <$> split "," raw)) /\
  (forall raw : string, UI._split_fields raw = _parse_fields (Some raw)) /\
  _parse_fields (Some "a,, b ,a") = ["a"; "b"; "a"].
Proof.
  split; [reflexivity|]. split; [|split].
  - intros raw. unfold _parse_fields.
    destruct raw as [|c r]; [reflexivity|].
    cbn [truthy negb]. apply comprehension_strip.
  - apply split_fields_parse_fields.
  - reflexivity.
Qed.

(** [_parse_int] returns: the [ValueError] of [int] is the only exception
    that can arise inside it, and it is caught. *)
Lemma parse_int_ret (value : option string) (default : Z) :
  _parse_int value default = Ret (count_of value default).
Proof.
  unfold count_of, _parse_int.
  destruct value as [s|]; [|reflexivity].
  destruct (truthy s); [|reflexivity]. cbn [negb].
  destruct (int s) as [n|e] eqn:Hint; [reflexivity|].
  apply int_raises in Hint. subst e. reflexivity.
Qed.

Lemma parse_int_literal (s : string) (z default : Z) :
  int s = Ret z -> _parse_int (Some s) default = Ret z.
Proof.
  intros Hint. unfold _parse_int.
  destruct s as [|c r]; [discriminate Hint|].
  cbn [truthy negb]. now rewrite Hint.
Qed.

Lemma parse_int_not_literal (s : string) (e : exn) (default : Z) :
  int s = Raise e -> _parse_int (Some s) default = Ret default.
Proof.
  intros Hint. unfold _parse_int.
  destruct s as [|c r]; [reflexivity|].
  cbn [truthy negb]. rewrite Hint.
  apply int_raises in Hint. subst e. reflexivity.
Qed.

(** C5: count parsing always returns and never raises; a string that is
    an integer literal gives that integer (["20"] gives 20), and absence,
    the empty string and a string that is no literal (["abc"]) give the
    default unchanged. *)
Theorem parse_int_spec (default : Z) :
  (forall value, exists n, _parse_int value default = Ret n) /\
  _parse_int None default = Ret default /\
  _parse_int (Some EmptyString) default = Ret default /\
  (forall s z, int s = Ret z -> _parse_int (Some s) default = Ret z) /\
  (forall s e, int s = Raise e -> _parse_int (Some s) default = Ret default) /\
  _parse_int (Some "20") default = Ret 20 /\
  _parse_int (Some "abc") default = Ret default.
Proof.
  split; [intros value; eexists; apply parse_int_ret|].
  split; [reflexivity|]. split; [reflexivity|].
  split; [|split; [|split; reflexivity]].
  - intros s z. apply parse_int_literal.
  - intros s e. apply parse_int_not_literal.
Qed.

(** The decimal numerals of either sign are parsed to their value (up to
    the interpreter's limit on the length of a numeral, which [int] here
    does not have). *)
Lemma parse_int_numeral (ds : list ascii) (default : Z) :
  ds <> [] -> forallb isdigit ds = true ->
  _parse_int (Some (string_of_list_ascii ds)) default = Ret (numeral_value ds) /\
  _parse_int (Some (String "-" (string_of_list_ascii ds))) default
  = Ret (- numeral_value ds).
Proof.
  intros Hne Hd. destruct (int_numeral ds Hne Hd) as [Hpos Hneg].
  split; apply parse_int_literal; assumption.
Qed.

End Normalizer.

(* ================================================================== *)
(** * The Action Router *)
(* ================================================================== *)

Section Router.

Context {data : Type}.
Variable cfg : Config.
Variable scraper : list call -> call -> result data.
Variable json_dumps : @JsonDict data -> string.
Variable json_refuses : data -> option exn.

Abbreviation dispatch := (dispatch cfg scraper json_dumps json_refuses).
Abbreviation handler := (handler cfg scraper json_dumps json_refuses).
Abbreviation handler_of := (handler_of cfg scraper).
Abbreviation _build_response := (_build_response json_dumps json_refuses).
Abbreviation built := (built json_dumps).
Abbreviation respond := (respond json_dumps json_refuses).
Abbreviation action_count := (action_count cfg).

Implicit Types (args : gmap string string) (log : list call) (a : action).

(** *** The lookup in [ACTION_MAP] *)

Lemma ACTION_MAP_name a :
  ACTION_MAP cfg scraper !! action_name a = Some (handler_of a).
Proof. destruct a; reflexivity. Qed.

Lemma ACTION_MAP_other (k : string) :
  (forall a, k <> action_name a) -> ACTION_MAP cfg scraper !! k = None.
Proof.
  intros Hk. unfold ACTION_MAP.
  rewrite !lookup_insert_ne, lookup_empty; [reflexivity|..].
  - exact (not_eq_sym (Hk Developer)).
  - exact (not_eq_sym (Hk Reviews)).
  - exact (not_eq_sym (Hk Search)).
  - exact (not_eq_sym (Hk App)).
Qed.

Lemma action_name_truthy a : truthy (action_name a) = true.
Proof. destruct a; reflexivity. Qed.

(** *** The response, when it is built *)

(** A payload of strings is always accepted. *)
Lemma build_error (st : Z) (m : string) :
  _build_response st (error_payload m) None = Ret (built st (error_payload m)).
Proof. reflexivity. Qed.

Lemma build_unexpected (st : Z) (e : exn) :
  _build_response st (unexpected e) None = Ret (built st (unexpected e)).
Proof. reflexivity. Qed.

(** A payload with a result of the scraper is accepted when the result
    is. *)
Lemma build_data (st : Z) (d : data) :
  _build_response st (data_payload d) None
  = match json_refuses d with
    | Some e => Raise e
    | None => Ret (built st (data_payload d))
    end.
Proof.
  unfold _build_response, dumps. cbn [refused data_payload].
  destruct (json_refuses d); reflexivity.
Qed.

(** *** What [dispatch] does with the handler's outcome *)

Lemma dispatch_known a args log :
  lower (the (args !! "action")) = action_name a ->
  dispatch args log = respond (handler_of a args log).
Proof.
  intros Ha. unfold dispatch. cbv zeta. rewrite Ha, action_name_truthy.
  cbn [negb]. rewrite ACTION_MAP_name.
  unfold bind, try_except, respond.
  destruct (handler_of a args log) as [[[st payload]|e] log']; [reflexivity|].
  destruct e; reflexivity.
Qed.

Lemma dispatch_no_action args log :
  lower (the (args !! "action")) = EmptyString ->
  dispatch args log
  = (Ret (built 400 (error_payload "Missing 'action' query parameter.")), log).
Proof. intros Ha. unfold dispatch. cbv zeta. now rewrite Ha. Qed.

Lemma dispatch_unknown args log :
  lower (the (args !! "action")) <> EmptyString ->
  (forall a, lower (the (args !! "action")) <> action_name a) ->
  dispatch args log
  = (Ret (built 400
            (error_payload ("Unsupported action '"
                            +:+ lower (the (args !! "action")) +:+ "'."))),
     log).
Proof.
  intros Hne Hk. unfold dispatch. cbv zeta.
  apply truthy_true in Hne. rewrite Hne. cbn [negb].
  now rewrite (ACTION_MAP_other _ Hk).
Qed.

(** *** The handlers *)

Lemma invoke_ret {B} (c : call) (f : data -> B) log :
  bind (invoke scraper c) (fun d => ret (f d)) log
  = (match scraper log c with
     | Ret d => Ret (f d)
     | Raise e => Raise e
     end, log ++ [c]).
Proof. unfold bind, invoke, ret. destruct (scraper log c); reflexivity. Qed.

(** A handler whose identifier is missing answers 400 and calls
    nothing. *)
Lemma handler_of_missing a args log :
  falsy (args !! required_identifier a) = true ->
  handler_of a args log = (Ret (400, error_payload (missing_required a)), log).
Proof.
  intros Hid. destruct a; cbn [required_identifier] in Hid;
    unfold handler_of, _handle_app, _handle_search, _handle_reviews,
      _handle_developer; rewrite Hid; reflexivity.
Qed.

(** A handler whose identifier is present issues one call; its result is
    the call's outcome, and every argument of the call is determined by
    the request. *)
Lemma handler_of_present a args log :
  falsy (args !! required_identifier a) = false ->
  exists c,
    handler_of a args log
    = (match scraper log c with
       | Ret d => Ret (200, data_payload d)
       | Raise e => Raise e
       end, log ++ [c]) /\
    call_action c = a /\
    call_identifier c = the (args !! required_identifier a) /\
    call_lang c = get_default args "lang" (DEFAULT_LANGUAGE cfg) /\
    call_country c = get_default args "country" (DEFAULT_COUNTRY cfg) /\
    call_count c = action_count a args /\
    call_sort c
    = match a with
      | Reviews => Some (get_default args "sort" (DEFAULT_REVIEWS_SORT cfg))
      | _ => None
      end /\
    call_assets c
    = match a with
      | App => Some (get_or_None args "assets")
      | _ => None
      end /\
    call_fields c
    = match _parse_fields (args !! "fields") with
      | [] => None
      | fields => Some fields
      end /\
    is_analyze c
    = match _parse_fields (args !! "fields") with
      | [] => true
      | _ => false
      end.
Proof.
  intros Hid. destruct a; cbn [required_identifier] in Hid |- *;
    unfold handler_of, _handle_app, _handle_search, _handle_reviews,
      _handle_developer, action_count; rewrite Hid;
    try (unfold bind at 1, lift; rewrite parse_int_ret);
    destruct (_parse_fields (args !! "fields")) as [|f fs];
    rewrite invoke_ret; eexists; (split; [reflexivity|]);
    repeat split; reflexivity.
Qed.

Lemma present_falsy args key : present args key -> falsy (args !! key) = false.
Proof.
  intros (v & Hv & Hne). rewrite Hv. cbn.
  apply truthy_true in Hne. now rewrite Hne.
Qed.

Lemma absent_falsy args key :
  args !! key = None \/ args !! key = Some EmptyString ->
  falsy (args !! key) = true.
Proof. intros [-> | ->]; reflexivity. Qed.

Lemma respond_log (o : result (@HandlerResult data) * list call) :
  snd (respond o) = snd o.
Proof. destruct o as [[[st p]|[]] log']; reflexivity. Qed.

(** The log of a dispatch to a handler whose identifier is present, with
    the call the handler issued. *)
Lemma dispatch_present a args log :
  lower (the (args !! "action")) = action_name a ->
  present args (required_identifier a) ->
  exists c,
    dispatch args log
    = respond (match scraper log c with
               | Ret d => Ret (200, data_payload d)
               | Raise e => Raise e
               end, log ++ [c]) /\
    handler_of a args log
    = (match scraper log c with
       | Ret d => Ret (200, data_payload d)
       | Raise e => Raise e
       end, log ++ [c]) /\
    call_action c = a /\
    call_lang c = get_default args "lang" (DEFAULT_LANGUAGE cfg) /\
    call_country c = get_default args "country" (DEFAULT_COUNTRY cfg) /\
    call_count c = action_count a args /\
    call_sort c
    = match a with
      | Reviews => Some (get_default args "sort" (DEFAULT_REVIEWS_SORT cfg))
      | _ => None
      end /\
    call_assets c
    = match a with
      | App => Some (get_or_None args "assets")
      | _ => None
      end /\
    call_fields c
    = match _parse_fields (args !! "fields") with
      | [] => None
      | fields => Some fields
      end /\
    is_analyze c
    = match _parse_fields (args !! "fields") with
      | [] => true
      | _ => false
      end.
Proof.
  intros Ha Hid. apply present_falsy in Hid.
  destruct (handler_of_present a args log Hid)
    as (c & Hrun & Hact & _ & Hrest).
  exists c. rewrite (dispatch_known a args log Ha), Hrun.
  repeat split; try reflexivity; try exact Hact; apply Hrest.
Qed.

(** C1: for every action, a request whose required identifier is absent or
    empty is answered 400 with the message that names the missing
    parameter, and the log of calls is unchanged: no operation of the
    scraper is invoked. *)
Theorem missing_identifier_rejected a args log :
  lower (the (args !! "action")) = action_name a ->
  args !! required_identifier a = None \/
  args !! required_identifier a = Some EmptyString ->
  dispatch args log
  = (Ret (built 400 (error_payload (missing_required a))), log).
Proof.
  intros Ha Hid. apply absent_falsy in Hid.
  rewrite (dispatch_known a args log Ha).
  now rewrite (handler_of_missing a args log Hid).
Qed.

(** C2: for every action and every request whose required identifier is
    present, the dispatch issues exactly one call; with a non-empty
    normalized fields list it is the get-fields operation of the action,
    on that list, and not the analysis; with the fields parameter absent
    or normalized to the empty list it is the analysis and not the
    get-fields operation. *)
Theorem fields_select_operation a args log :
  lower (the (args !! "action")) = action_name a ->
  present args (required_identifier a) ->
  exists c,
    snd (dispatch args log) = log ++ [c] /\
    call_action c = a /\
    (args !! "fields" = None -> is_analyze c = true) /\
    match _parse_fields (args !! "fields") with
    | [] => is_analyze c = true /\ is_get_fields c = false
    | fields =>
        is_get_fields c = true /\ is_analyze c = false /\
        call_fields c = Some fields
    end.
Proof.
  intros Ha Hid.
  destruct (dispatch_present a args log Ha Hid)
    as (c & Hrun & _ & Hact & _ & _ & _ & _ & _ & Hfields & Hkind).
  exists c. rewrite Hrun, respond_log. split; [reflexivity|].
  split; [exact Hact|]. split.
  - intros Hnone. rewrite Hnone in Hkind. exact Hkind.
  - unfold is_get_fields. rewrite Hkind.
    destruct (_parse_fields (args !! "fields")); [split; reflexivity|].
    repeat split. exact Hfields.
Qed.

(** C9: for the actions that take a count, a count parameter that is an
    integer literal reaches the scraper as the integer it denotes,
    whatever its sign or size. *)
Theorem count_forwarded_unchanged a args log (s : string) (n : Z) :
  a <> App ->
  lower (the (args !! "action")) = action_name a ->
  present args (required_identifier a) ->
  args !! "count" = Some s ->
  int s = Ret n ->
  exists c,
    snd (dispatch args log) = log ++ [c] /\
    call_action c = a /\
    call_count c = Some n.
Proof.
  intros Happ Ha Hid Hcount Hint.
  destruct (dispatch_present a args log Ha Hid)
    as (c & Hrun & _ & Hact & _ & _ & Hc & _).
  exists c. rewrite Hrun, respond_log. split; [reflexivity|].
  split; [exact Hact|]. rewrite Hc.
  unfold action_count, count_of. rewrite Hcount.
  destruct a; [congruence|..]; now rewrite (parse_int_literal s n _ Hint).
Qed.

(** Zero, the negative numbers and the numbers of many digits are among
    them (up to the interpreter's limit on the length of a numeral, which
    [int] here does not have). *)
Lemma count_numeral_forwarded a args log (ds : list ascii) (neg : bool) :
  a <> App ->
  lower (the (args !! "action")) = action_name a ->
  present args (required_identifier a) ->
  ds <> [] -> forallb isdigit ds = true ->
  args !! "count"
  = Some (if neg then String "-" (string_of_list_ascii ds)
          else string_of_list_ascii ds) ->
  exists c,
    snd (dispatch args log) = log ++ [c] /\
    call_count c = Some (if neg then - numeral_value ds else numeral_value ds).
Proof.
  intros Happ Ha Hid Hne Hd Hcount.
  destruct (int_numeral ds Hne Hd) as [Hpos Hneg].
  destruct (dispatch_present a args log Ha Hid)
    as (c & Hrun & _ & _ & _ & _ & Hc & _).
  exists c. rewrite Hrun, respond_log. split; [reflexivity|]. rewrite Hc.
  unfold action_count, count_of. rewrite Hcount.
  destruct a; [congruence|..]; destruct neg;
    first [now rewrite (parse_int_literal _ _ _ Hneg)
          | now rewrite (parse_int_literal _ _ _ Hpos)].
Qed.

(** *** The handler as a whole *)

Lemma action_name_dec (k : string) :
  {a | k = action_name a} + {forall a, k <> action_name a}.
Proof.
  destruct (string_dec k "app") as [->|H1]; [left; now exists App|].
  destruct (string_dec k "search") as [->|H2]; [left; now exists Search|].
  destruct (string_dec k "reviews") as [->|H3]; [left; now exists Reviews|].
  destruct (string_dec k "developer") as [->|H4]; [left; now exists Developer|].
  right. intros []; assumption.
Qed.

(** The responses of [respond]: an outcome of a handler that carries no
    result of the scraper always gives a response, and one that carries a
    result gives one when [json.dumps] accepts the result. *)
Lemma respond_call (c : call) log :
  respond (match scraper log c with
           | Ret d => Ret (200, data_payload d)
           | Raise e => Raise e
           end, log ++ [c])
  = (match scraper log c with
     | Ret d =>
         match json_refuses d with
         | Some e => Raise e
         | None => Ret (built 200 (data_payload d))
         end
     | Raise (GPlayScraperError m) => Ret (built 502 (error_payload m))
     | Raise e => Ret (built 500 (unexpected e))
     end, log ++ [c]).
Proof.
  destruct (scraper log c) as [d|e]; cbn [respond].
  - now rewrite build_data.
  - destruct e; reflexivity.
Qed.

Lemma dispatch_ret args log :
  (forall c d, scraper log c = Ret d -> json_refuses d = None) ->
  exists resp log', dispatch args log = (Ret resp, log').
Proof.
  intros Hok.
  destruct (string_dec (lower (the (args !! "action"))) EmptyString) as [He|Hne].
  - rewrite (dispatch_no_action args log He). eauto.
  - destruct (action_name_dec (lower (the (args !! "action")))) as [[a Ha]|Hk].
    + destruct (falsy (args !! required_identifier a)) eqn:Hid.
      * rewrite (dispatch_known a args log Ha).
        rewrite (handler_of_missing a args log Hid). cbn [respond].
        rewrite build_error. eauto.
      * rewrite (dispatch_known a args log Ha).
        destruct (handler_of_present a args log Hid) as (c & -> & _).
        rewrite respond_call.
        destruct (scraper log c) as [d|e] eqn:Hc.
        -- rewrite (Hok c d Hc). eauto.
        -- destruct e; eauto.
    + rewrite (dispatch_unknown args log Hne Hk). eauto.
Qed.

(** Past the pre-flight gate the handler is the dispatch. *)
Lemma handler_dispatch (request : request) log :
  method request <> "OPTIONS" ->
  handler request log = dispatch (args request) log.
Proof.
  intros Hm. unfold handler.
  destruct (String.eqb_spec (method request) "OPTIONS"); [contradiction|reflexivity].
Qed.

(** A pre-flight request is answered 204 with the empty payload, whatever
    its parameters. *)
Lemma handler_preflight (request : request) log :
  method request = "OPTIONS" ->
  exists resp,
    handler request log = (Ret resp, log) /\
    status resp = 204 /\ body resp = json_dumps [].
Proof.
  intros Hm. unfold handler. rewrite Hm. cbn [String.eqb Ascii.eqb Bool.eqb].
  eexists. split; [reflexivity|]. split; reflexivity.
Qed.

(** C3, amended: the handler returns a response for every request for
    which [json.dumps] accepts what the scraper returns (a payload of
    strings it always accepts).  A pre-flight request (method [OPTIONS])
    is answered 204 with the serialized empty payload as its body,
    whatever its parameters.  For every other request: a missing or empty
    action gives 400 with [{error: message}], and so do an unknown action
    and a missing identifier; when the handler of the action calls the
    scraper, a result [d] that [json.dumps] accepts gives 200 with
    [{data: d}], a [GPlayScraperError] gives 502 with
    [{error: str(exc)}], and any other exception raised by the call gives
    500 with [{error: "Unexpected server error.", details: str(exc)}]. *)
Theorem handler_outcomes (request : request) log :
  ((forall c d, scraper log c = Ret d -> json_refuses d = None) ->
   exists resp log', handler request log = (Ret resp, log')) /\
  (method request = "OPTIONS" ->
   exists resp,
     handler request log = (Ret resp, log) /\
     status resp = 204 /\ body resp = json_dumps []) /\
  (method request <> "OPTIONS" ->
   let action := lower (the (args request !! "action")) in
   (action = EmptyString ->
    handler request log
    = (Ret (built 400 (error_payload "Missing 'action' query parameter.")), log)) /\
   (action <> EmptyString -> (forall a, action <> action_name a) ->
    handler request log
    = (Ret (built 400 (error_payload ("Unsupported action '" +:+ action +:+ "'."))),
       log)) /\
   (forall a, action = action_name a ->
    (falsy (args request !! required_identifier a) = true ->
     handler request log
     = (Ret (built 400 (error_payload (missing_required a))),
        log)) /\
    (present (args request) (required_identifier a) ->
     exists c,
       handler_of a (args request) log
       = (match scraper log c with
          | Ret d => Ret (200, data_payload d)
          | Raise e => Raise e
          end, log ++ [c]) /\
       match scraper log c with
       | Ret d =>
           json_refuses d = None ->
           handler request log
           = (Ret (built 200 (data_payload d)), log ++ [c])
       | Raise (GPlayScraperError m) =>
           handler request log
           = (Ret (built 502 (error_payload m)), log ++ [c])
       | Raise e =>
           handler request log
           = (Ret (built 500 (unexpected e)), log ++ [c])
       end))).
Proof.
  split; [|split].
  - intros Hok. unfold handler.
    destruct (String.eqb (method request) "OPTIONS").
    + eexists _, _. reflexivity.
    + now apply dispatch_ret.
  - apply handler_preflight.
  - intros Hm action. rewrite (handler_dispatch request log Hm).
    split; [apply dispatch_no_action|]. split; [apply dispatch_unknown|].
    intros a Ha. split.
    + intros Hid. rewrite (dispatch_known a _ log Ha).
      now rewrite (handler_of_missing a _ log Hid).
    + intros Hid.
      destruct (dispatch_present a _ log Ha Hid) as (c & Hrun & Hh & _).
      exists c. split; [exact Hh|]. rewrite Hrun, respond_call.
      destruct (scraper log c) as [d|[]]; try reflexivity.
      now intros ->.
Qed.

(** *** The action name *)

Lemma the_insert args (key v : string) : the (<[key := v]> args !! key) = v.
Proof. now rewrite lookup_insert_eq. Qed.

(** No handler reads the [action] parameter. *)
Lemma handler_of_ignores_action a args (s : string) log :
  handler_of a (<["action" := s]> args) log = handler_of a args log.
Proof.
  destruct a;
    unfold handler_of, _handle_app, _handle_search, _handle_reviews,
      _handle_developer, get_default, get_or_None;
    rewrite !lookup_insert_ne by discriminate; reflexivity.
Qed.

(** C6, amended: the action is looked up by its lower case, so that a
    request is routed as the same request with the action in lower case;
    a non-empty action whose lower case is none of the four names is
    answered 400 with the message [Unsupported action '<lower case>'.],
    and an empty action 400 with the message [Missing 'action' query
    parameter.], both without a call and whatever the other parameters
    are. *)
Theorem action_lookup_ignores_case args (s : string) log :
  dispatch (<["action" := s]> args) log
  = dispatch (<["action" := lower s]> args) log /\
  (s <> EmptyString -> (forall a, lower s <> action_name a) ->
   dispatch (<["action" := s]> args) log
   = (Ret (built 400 (error_payload ("Unsupported action '" +:+ lower s +:+ "'."))),
      log)) /\
  (s = EmptyString ->
   dispatch (<["action" := s]> args) log
   = (Ret (built 400 (error_payload "Missing 'action' query parameter.")), log)).
Proof.
  assert (Hl : lower (the (<["action" := s]> args !! "action")) = lower s)
    by now rewrite the_insert.
  assert (Hll : lower (the (<["action" := lower s]> args !! "action")) = lower s)
    by now rewrite the_insert, lower_idemp.
  split; [|split].
  - destruct (string_dec (lower s) EmptyString) as [He|Hne].
    + rewrite !dispatch_no_action by congruence. reflexivity.
    + destruct (action_name_dec (lower s)) as [[a Ha]|Hk].
      * rewrite (dispatch_known a (<["action" := s]> args) log) by congruence.
        rewrite (dispatch_known a (<["action" := lower s]> args) log) by congruence.
        now rewrite !handler_of_ignores_action.
      * rewrite !dispatch_unknown; rewrite ?Hl, ?Hll; auto.
  - intros Hne Hk. rewrite dispatch_unknown; rewrite ?Hl; auto.
    now rewrite lower_empty.
  - intros ->. now rewrite dispatch_no_action.
Qed.

(** *** The parameters with a default *)

(** C7, amended: for every action and every request whose identifier is
    present, the language, the country and (for reviews) the sort order
    that reach the scraper are the declared defaults when the parameter is
    absent, and the value of the parameter when it is there, the empty
    string included; the asset size of the app action is [None] when the
    parameter is absent or empty, and its value otherwise. *)
Theorem defaults_when_absent a args log :
  lower (the (args !! "action")) = action_name a ->
  present args (required_identifier a) ->
  exists c,
    snd (dispatch args log) = log ++ [c] /\
    (args !! "lang" = None -> call_lang c = DEFAULT_LANGUAGE cfg) /\
    (forall v, args !! "lang" = Some v -> call_lang c = v) /\
    (args !! "country" = None -> call_country c = DEFAULT_COUNTRY cfg) /\
    (forall v, args !! "country" = Some v -> call_country c = v) /\
    (a = Reviews ->
     (args !! "sort" = None -> call_sort c = Some (DEFAULT_REVIEWS_SORT cfg)) /\
     (forall v, args !! "sort" = Some v -> call_sort c = Some v)) /\
    (a = App ->
     (args !! "assets" = None \/ args !! "assets" = Some EmptyString ->
      call_assets c = Some None) /\
     (forall v, v <> EmptyString -> args !! "assets" = Some v ->
      call_assets c = Some (Some v))).
Proof.
  intros Ha Hid.
  destruct (dispatch_present a args log Ha Hid)
    as (c & Hrun & _ & _ & Hlang & Hcountry & _ & Hsort & Hassets & _).
  exists c. rewrite Hrun, respond_log. split; [reflexivity|].
  rewrite Hlang, Hcountry, Hsort, Hassets. unfold get_default, get_or_None.
  repeat split.
  - now intros ->.
  - now intros v ->.
  - now intros ->.
  - now intros v ->.
  - subst a. now intros ->.
  - subst a. now intros v ->.
  - subst a. now intros [-> | ->].
  - subst a. intros v Hne ->. apply truthy_true in Hne. now rewrite Hne.
Qed.

End Router.

(* ================================================================== *)
(** * The router on the stub service *)
(* ================================================================== *)

Section OnStub.

Abbreviation run := (dispatch Stub.config Stub.scraper Stub.json_dumps Stub.json_refuses).
Abbreviation build := (built Stub.json_dumps).

(** The messages of the handlers. *)
Example missing_required_messages :
  missing_required App = "Missing required 'appId' parameter." /\
  missing_required Search = "Missing required 'query' parameter." /\
  missing_required Reviews = "Missing required 'appId' parameter." /\
  missing_required Developer = "Missing required 'developerId' parameter.".
Proof. repeat split; reflexivity. Qed.

(** A search for "productivity" with count 5. *)
Example search_scenario :
  run (Stub.query [("action", "search"); ("query", "productivity"); ("count", "5")]) []
  = (Ret (build 200 (data_payload "productivity")),
     [search_analyze "productivity" 5 "en" "us"]).
Proof. vm_compute. reflexivity. Qed.

(** A result the serializer refuses: the call is made, and the exception
    of [json.dumps], raised after the [try] statement, leaves the
    handler. *)
Example refused_result_escapes :
  handler Stub.config Stub.scraper Stub.json_dumps Stub.json_refuses
    {| method := "GET";
       args := Stub.query [("action", "app"); ("appId", "bytes")] |} []
  = (Raise (Exception "Object of type bytes is not JSON serializable"),
     [app_analyze "bytes" "en" "us" None]).
Proof. vm_compute. reflexivity. Qed.

(** Reviews with two fields: the selective operation, on the two names. *)
Example reviews_scenario :
  snd (run (Stub.query [("action", "reviews"); ("appId", "com.whatsapp");
                        ("fields", "score, text")]) [])
  = [reviews_get_fields "com.whatsapp" ["score"; "text"] 50 "en" "us" "NEWEST"].
Proof. vm_compute. reflexivity. Qed.

(** An action in capitals is routed as the action in lower case, and an
    unknown one is refused by its lower case. *)
Example case_scenarios :
  run (Stub.query [("action", "APP"); ("appId", "com.whatsapp")]) []
  = run (Stub.query [("action", "app"); ("appId", "com.whatsapp")]) [] /\
  run (Stub.query [("action", "APP"); ("appId", "com.whatsapp")]) []
  = (Ret (build 200 (data_payload "com.whatsapp")),
     [app_analyze "com.whatsapp" "en" "us" None]) /\
  run (Stub.query [("action", "Foo"); ("appId", "com.whatsapp")]) []
  = (Ret (build 400 (error_payload "Unsupported action 'foo'.")), []).
Proof. repeat split; vm_compute; reflexivity. Qed.

(** The two kinds of failure of the scraper. *)
Example failure_scenarios :
  run (Stub.query [("action", "app"); ("appId", "missing")]) []
  = (Ret (build 502 (error_payload "App not found")),
     [app_analyze "missing" "en" "us" None]) /\
  run (Stub.query [("action", "app"); ("appId", "crash")]) []
  = (Ret (build 500 (unexpected (Exception "connection reset"))),
     [app_analyze "crash" "en" "us" None]).
Proof. split; vm_compute; reflexivity. Qed.

Lemma missing_identifier_rejected_witness :
  let args := Stub.query [("action", "Reviews"); ("appId", "")] in
  lower (the (args !! "action")) = action_name Reviews /\
  (args !! required_identifier Reviews = None \/
   args !! required_identifier Reviews = Some EmptyString) /\
  run args []
  = (Ret (build 400 (error_payload (missing_required Reviews))), []).
Proof.
  intros args.
  assert (H1 : lower (the (args !! "action")) = action_name Reviews)
    by reflexivity.
  assert (H2 : args !! required_identifier Reviews = None \/
               args !! required_identifier Reviews = Some EmptyString)
    by (right; reflexivity).
  split; [exact H1|]. split; [exact H2|].
  exact (missing_identifier_rejected Stub.config Stub.scraper Stub.json_dumps Stub.json_refuses
           Reviews args [] H1 H2).
Defined.

Lemma present_intro (args : gmap string string) (key v : string) :
  args !! key = Some v -> truthy v = true -> present args key.
Proof. intros Hv Ht. exists v. split; [exact Hv | now apply truthy_true]. Qed.

Lemma fields_select_operation_witness :
  let args := Stub.query [("action", "reviews"); ("appId", "com.whatsapp");
                          ("fields", "score, text")] in
  exists c,
    snd (run args []) = [] ++ [c] /\
    call_action c = Reviews /\
    (args !! "fields" = None -> is_analyze c = true) /\
    match _parse_fields (args !! "fields") with
    | [] => is_analyze c = true /\ is_get_fields c = false
    | fields =>
        is_get_fields c = true /\ is_analyze c = false /\
        call_fields c = Some fields
    end.
Proof.
  intros args.
  apply (fields_select_operation Stub.config Stub.scraper Stub.json_dumps Stub.json_refuses Reviews).
  - reflexivity.
  - apply (present_intro _ _ "com.whatsapp"); reflexivity.
Defined.

Lemma count_forwarded_unchanged_witness :
  let args := Stub.query [("action", "search"); ("query", "productivity");
                          ("count", "-0012345678901234567890")] in
  exists c,
    snd (run args []) = [] ++ [c] /\
    call_action c = Search /\
    call_count c = Some (-12345678901234567890).
Proof.
  intros args.
  apply (count_forwarded_unchanged Stub.config Stub.scraper Stub.json_dumps Stub.json_refuses
           Search args [] "-0012345678901234567890").
  - discriminate.
  - reflexivity.
  - apply (present_intro _ _ "productivity"); reflexivity.
  - reflexivity.
  - reflexivity.
Defined.

(** C3, as the claim gives it: a pre-flight request without an action is
    not answered 400. *)
Lemma preflight_without_action :
  let request := {| method := "OPTIONS"; args := Stub.query [] |} in
  args request !! "action" = None /\
  exists resp,
    handler Stub.config Stub.scraper Stub.json_dumps Stub.json_refuses request [] = (Ret resp, []) /\
    status resp = 204 /\ status resp <> 400.
Proof.
  intros request. split; [reflexivity|].
  eexists. split; [reflexivity|]. split; [reflexivity | discriminate].
Qed.

(** C6, as the claim gives it: the lower case of the empty action is none
    of the four names, and the answer is not the unsupported-action
    message but the missing-action one. *)
Lemma empty_action_not_unsupported :
  let args := Stub.query [("action", ""); ("appId", "com.whatsapp")] in
  (forall a, lower (the (args !! "action")) <> action_name a) /\
  run args []
  = (Ret (build 400 (error_payload "Missing 'action' query parameter.")), []) /\
  run args []
  <> (Ret (build 400 (error_payload "Unsupported action ''.")), []).
Proof.
  intros args. split; [intros []; discriminate|].
  split; [reflexivity|]. vm_compute. discriminate.
Qed.

(** C7, as the claim gives it: an empty [lang] reaches the scraper as the
    empty string, which is not the declared default. *)
Lemma empty_language_not_defaulted :
  let args := Stub.query [("action", "app"); ("appId", "com.whatsapp");
                          ("lang", "")] in
  snd (run args []) = [app_analyze "com.whatsapp" "" "us" None] /\
  call_lang (app_analyze "com.whatsapp" "" "us" None)
  <> DEFAULT_LANGUAGE Stub.config.
Proof. split; [reflexivity | discriminate]. Qed.

Lemma defaults_when_absent_witness :
  let args := Stub.query [("action", "app"); ("appId", "com.whatsapp");
                          ("assets", "")] in
  exists c,
    snd (run args []) = [] ++ [c] /\
    call_lang c = "en" /\ call_country c = "us" /\ call_assets c = Some None.
Proof.
  intros args.
  destruct (defaults_when_absent Stub.config Stub.scraper Stub.json_dumps Stub.json_refuses
              App args [])
    as (c & Hlog & Hlang & _ & Hcountry & _ & _ & Hassets).
  - reflexivity.
  - apply (present_intro _ _ "com.whatsapp"); reflexivity.
  - exists c. split; [exact Hlog|].
    split; [apply Hlang; reflexivity|].
    split; [apply Hcountry; reflexivity|].
    apply Hassets; [reflexivity | right; reflexivity].
Defined.

Lemma handler_outcomes_witness :
  let request :=
    {| method := "GET";
       args := Stub.query [("action", "Reviews"); ("appId", "missing")] |} in
  method request <> "OPTIONS" /\
  lower (the (args request !! "action")) = action_name Reviews /\
  present (args request) (required_identifier Reviews) /\
  exists c,
    Stub.scraper [] c = Raise (GPlayScraperError "App not found") /\
    handler Stub.config Stub.scraper Stub.json_dumps Stub.json_refuses request []
    = (Ret (build 502 (error_payload "App not found")), [c]).
Proof.
  intros request.
  assert (Hm : method request <> "OPTIONS") by discriminate.
  assert (Ha : lower (the (args request !! "action")) = action_name Reviews)
    by reflexivity.
  assert (Hid : present (args request) (required_identifier Reviews))
    by (apply (present_intro _ _ "missing"); reflexivity).
  split; [exact Hm|]. split; [exact Ha|]. split; [exact Hid|].
  destruct (handler_outcomes Stub.config Stub.scraper Stub.json_dumps Stub.json_refuses request [])
    as (_ & _ & Hmap).
  destruct (Hmap Hm) as (_ & _ & Hknown).
  destruct (Hknown Reviews Ha) as (_ & Hpresent).
  destruct (Hpresent Hid) as (c & Hrun & Hresp).
  exists c.
  assert (Hc : c = reviews_analyze "missing" 50 "en" "us" "NEWEST").
  { vm_compute in Hrun. injection Hrun as _ Hlog. congruence. }
  subst c. split; [reflexivity | exact Hresp].
Defined.

Lemma action_lookup_ignores_case_witness :
  let args := Stub.query [("appId", "com.whatsapp")] in
  run (<["action" := "APP"]> args) [] = run (<["action" := lower "APP"]> args) [] /\
  run (<["action" := "Foo"]> args) []
  = (Ret (build 400 (error_payload ("Unsupported action '" +:+ lower "Foo" +:+ "'."))),
     []).
Proof.
  intros args. split.
  - exact (proj1 (action_lookup_ignores_case Stub.config Stub.scraper
                    Stub.json_dumps Stub.json_refuses args "APP" [])).
  - apply (proj1 (proj2 (action_lookup_ignores_case Stub.config Stub.scraper
                           Stub.json_dumps Stub.json_refuses args "Foo" []))).
    + discriminate.
    + intros []; discriminate.
Defined.

End OnStub.

(* ================================================================== *)
(** * The interactive front end *)
(* ================================================================== *)

Section FrontEnd.

Context {data : Type}.
Variable scraper : list call -> call -> result data.
Variable json_dumps : data -> result string.

Implicit Types (st : @UI.ui data) (k : UI.get_fields_click) (c : call).

(** *** Get Fields without a field *)

(** A text of commas and white space only, the empty text among them,
    holds no field. *)
Lemma split_fields_blank (raw : string) :
  (forall ch, occurs ch raw -> ch = ","%char \/ isspace ch = true) ->
  UI._split_fields raw = [].
Proof.
  intros Hall. unfold UI._split_fields. rewrite comprehension_strip.
  apply fields_blank. exact Hall.
Qed.

(** C10: a click on a Get Fields button whose fields text holds no field
    shows the information dialog and does nothing else: no thread is
    started, nothing is queued, no operation of the scraper is invoked,
    and the status and the result text are as before. *)
Theorem get_fields_without_fields st k :
  UI._split_fields (UI.fields_text k) = [] ->
  UI.on_get_fields st k = UI.show st UI.fields_required /\
  UI.dialogs (UI.on_get_fields st k) = UI.dialogs st ++ [UI.fields_required] /\
  UI.threads (UI.on_get_fields st k) = UI.threads st /\
  UI.after_queue (UI.on_get_fields st k) = UI.after_queue st /\
  UI.calls (UI.on_get_fields st k) = UI.calls st /\
  UI.status_var (UI.on_get_fields st k) = UI.status_var st /\
  UI.result_text (UI.on_get_fields st k) = UI.result_text st.
Proof.
  intros Hnone.
  assert (Heq : UI.on_get_fields st k = UI.show st UI.fields_required).
  { destruct k; cbn [UI.fields_text] in Hnone; cbn [UI.on_get_fields];
      rewrite Hnone; reflexivity. }
  rewrite Heq. repeat split; reflexivity.
Qed.

(** With a field, the click starts one run of the selective operation. *)
Lemma get_fields_with_fields st k :
  UI._split_fields (UI.fields_text k) <> [] ->
  exists c,
    UI.on_get_fields st k = UI._run_async st c /\
    is_get_fields c = true /\
    call_fields c = Some (UI._split_fields (UI.fields_text k)).
Proof.
  intros Hsome.
  destruct k; cbn [UI.fields_text] in Hsome; cbn [UI.on_get_fields];
    destruct (UI._split_fields _) as [|f fs] eqn:Hf; try congruence;
    eexists; (split; [reflexivity|]); split; reflexivity.
Qed.

End FrontEnd.

(** *** The execution bridge *)

Section Bridge.

Context {data : Type}.
Variable scraper : list call -> call -> result data.
Variable json_dumps : data -> result string.

Abbreviation worker_step := (UI.worker_step scraper).
Abbreviation mainloop_step := (UI.mainloop_step json_dumps).

Implicit Types (st : @UI.ui data) (c : call) (i : nat).

(** A worker that stands before the wrapped call invokes the operation
    once and queues exactly one callback, whatever the outcome. *)
Lemma worker_queues_one_callback st i (t : UI.thread) :
  UI.threads st !! i = Some t -> UI.pos t = UI.at_call ->
  exists st',
    worker_step st i = Some st' /\
    UI.calls st' = UI.calls st ++ [UI.target t] /\
    UI.after_queue st'
    = UI.after_queue st ++ [UI.callback_of i (scraper (UI.calls st) (UI.target t))] /\
    UI.dialogs st' = UI.dialogs st /\
    UI.status_var st' = UI.status_var st /\
    UI.result_text st' = UI.result_text st.
Proof.
  intros Ht Hpos. unfold UI.worker_step. rewrite Ht, Hpos.
  destruct (scraper (UI.calls st) (UI.target t)) as [d|e].
  - eexists. split; [reflexivity|]. repeat split.
  - eexists. split; [reflexivity|]. destruct e; repeat split.
Qed.

(** After the worker has left the [except] clause, nothing more is queued
    by it. *)
Lemma worker_leaves_except st i (t : UI.thread) :
  UI.threads st !! i = Some t -> UI.pos t = UI.in_except ->
  exists st',
    worker_step st i = Some st' /\
    UI.threads st' !! i
    = Some {| UI.target := UI.target t; UI.pos := UI.finished; UI.exc := None |} /\
    UI.after_queue st' = UI.after_queue st /\
    UI.calls st' = UI.calls st.
Proof.
  intros Ht Hpos. unfold UI.worker_step. rewrite Ht, Hpos.
  eexists. split; [reflexivity|]. cbn.
  split; [|split; reflexivity].
  apply list_lookup_insert_eq. apply lookup_lt_Some in Ht. exact Ht.
Qed.

(** A success callback whose result is serialized completes the run: the
    text is put on top of the viewer and the status is [Finished]. *)
Lemma success_callback_completes st (d : data) (pretty : string) :
  json_dumps d = Ret pretty ->
  UI.run_callback json_dumps st (UI.on_success d)
  = (Ret tt,
     {| UI.status_var := "Finished";
        UI.result_text := pretty +:+ UI.result_text st;
        UI.dialogs := UI.dialogs st; UI.after_queue := UI.after_queue st;
        UI.threads := UI.threads st; UI.calls := UI.calls st |}).
Proof.
  intros Hd. unfold UI.run_callback, UI._handle_success, UI._display_result.
  rewrite Hd. reflexivity.
Qed.

(** A success callback whose result the serializer refuses raises the
    serializer's exception before anything is written. *)
Lemma success_callback_refused st (d : data) (e : exn) :
  json_dumps d = Raise e ->
  UI.run_callback json_dumps st (UI.on_success d) = (Raise e, st).
Proof.
  intros Hd. unfold UI.run_callback, UI._handle_success, UI._display_result.
  rewrite Hd. reflexivity.
Qed.

(** An error callback called while its worker is still inside the
    [except] clause shows the error. *)
Lemma error_callback_inside_except st i (t : UI.thread) (e : exn) (prefix : string) :
  UI.threads st !! i = Some t -> UI.exc t = Some e ->
  UI.run_callback json_dumps st (UI.on_error prefix i)
  = (Ret tt, UI._show_error st (prefix +:+ str_exc e)).
Proof.
  intros Ht He. unfold UI.run_callback, UI.read_exc. rewrite Ht.
  destruct t as [tg p x]. cbn in He. subst x. reflexivity.
Qed.

(** An error callback called after its worker has left the [except]
    clause raises [NameError], and shows nothing. *)
Lemma error_callback_after_except st i (t : UI.thread) (prefix : string) :
  UI.threads st !! i = Some t -> UI.exc t = None ->
  exists msg,
    UI.run_callback json_dumps st (UI.on_error prefix i)
    = (Raise (NameError msg), st).
Proof.
  intros Ht He. unfold UI.run_callback, UI.read_exc. rewrite Ht.
  destruct t as [tg p x]. cbn in He. subst x. eexists. reflexivity.
Qed.

(** A run whose wrapped call raises, with the worker finished before the
    main loop takes the callback: the callback raises [NameError], no
    dialog is shown, and the status stays [Running...]. *)
Lemma run_error_lost st c (e : exn) :
  UI.after_queue st = [] ->
  scraper (UI.calls st) c = Raise e ->
  let i := length (UI.threads st) in
  exists st2 st3 st4 msg,
    worker_step (UI._run_async st c) i = Some st2 /\
    worker_step st2 i = Some st3 /\
    mainloop_step st3 = Some (Raise (NameError msg), st4) /\
    UI.dialogs st4 = UI.dialogs st /\
    UI.status_var st4 = "Running..." /\
    UI.after_queue st4 = [].
Proof.
  destruct st as [sv rt dg q th cl]. cbn. intros -> He.
  set (i := length th).
  assert (Hi : forall t : UI.thread, (th ++ [t]) !! i = Some t)
    by (intros t; apply list_lookup_middle, eq_refl).
  assert (Hins : forall t t' : UI.thread, <[i := t']> (th ++ [t]) = th ++ [t']).
  { intros t t'. unfold i. rewrite insert_app_r_alt by lia.
    now rewrite Nat.sub_diag. }
  unfold UI.worker_step at 1. ui_unfold. rewrite Hi. cbn. rewrite He.
  ui_unfold. rewrite Hins.
  eexists. eexists. eexists. eexists.
  split; [reflexivity|].
  unfold UI.worker_step, UI.mainloop_step. ui_unfold.
  rewrite Hi. ui_unfold. rewrite Hins.
  split; [reflexivity|]. ui_unfold.
  unfold UI.run_callback, UI.read_exc. ui_unfold. rewrite Hi.
  split; [reflexivity|]. repeat split.
Qed.

(** The same run as an execution of the system: from the state the run
    starts in, a state is reached in which the queue is empty again, the
    run has shown no dialog and the status is still [Running...]. *)
Lemma run_error_lost_reachable st c (e : exn) :
  UI.after_queue st = [] ->
  scraper (UI.calls st) c = Raise e ->
  exists st',
    rtc (UI.step scraper json_dumps) (UI._run_async st c) st' /\
    UI.after_queue st' = [] /\
    UI.dialogs st' = UI.dialogs st /\
    UI.status_var st' = "Running...".
Proof.
  intros Hq He.
  destruct (run_error_lost st c e Hq He)
    as (st2 & st3 & st4 & msg & H1 & H2 & H3 & Hd & Hs & Hq').
  exists st4. split; [|auto].
  eapply rtc_l; [eapply UI.step_worker, H1|].
  eapply rtc_l; [eapply UI.step_worker, H2|].
  eapply rtc_l; [eapply UI.step_mainloop, H3|]. apply rtc_refl.
Qed.

End Bridge.

(** C8: the run of an operation that raises, on the stub.  The worker
    queues its one callback and finishes; the main loop then calls it: it
    raises [NameError]; no error dialog has been shown and the status is
    still [Running...].  Had the main loop called it while the worker was
    still inside the [except] clause, the error would have been shown. *)
Theorem error_callback_unbound_exc :
  let c := app_analyze "missing" "en" "us" None in
  let st1 := UI._run_async UI.initial c in
  exists st2 st3 st4 st4' msg,
    UI.worker_step Stub.scraper st1 0 = Some st2 /\
    UI.after_queue st2 = [UI.on_error "Scraper error: " 0] /\
    UI.calls st2 = [c] /\
    UI.worker_step Stub.scraper st2 0 = Some st3 /\
    UI.worker_step Stub.scraper st3 0 = None /\
    UI.mainloop_step Stub.pretty st3 = Some (Raise (NameError msg), st4) /\
    UI.dialogs st4 = [] /\
    UI.status_var st4 = "Running..." /\
    UI.after_queue st4 = [] /\
    UI.mainloop_step Stub.pretty st2 = Some (Ret tt, st4') /\
    UI.dialogs st4'
    = [UI.showerror "GPlay Scraper" "Scraper error: App not found"] /\
    UI.status_var st4' = "Error".
Proof.
  intros c st1. do 5 eexists.
  repeat (split; [reflexivity|]). reflexivity.
Qed.

Lemma get_fields_without_fields_witness :
  let k := UI.click_search "productivity" " , ,," 5 "en" "us" in
  UI._split_fields (UI.fields_text k) = [] /\
  UI.on_get_fields (UI.initial (data := string)) k
  = UI.show UI.initial UI.fields_required /\
  UI.threads (UI.on_get_fields (UI.initial (data := string)) k) = [] /\
  UI.calls (UI.on_get_fields (UI.initial (data := string)) k) = [].
Proof.
  intros k.
  assert (H : UI._split_fields (UI.fields_text k) = []) by reflexivity.
  destruct (get_fields_without_fields (UI.initial (data := string)) k H)
    as (Heq & _ & Hth & _ & Hcalls & _).
  split; [exact H|]. split; [exact Heq|]. split; [exact Hth | exact Hcalls].
Defined.

(* ================================================================== *)
(** * Further properties of the Parameter Normalizer *)
(* ================================================================== *)

Section NormalizerLaws.

Implicit Types (s r t : string) (c sep : ascii) (fs : list string).

Lemma split_sep_app sep s t :
  split sep (s +:+ String sep t) = split sep s ++ split sep t.
Proof.
  induction s as [|c r IH].
  - rewrite append_empty. simpl. now rewrite Ascii.eqb_refl.
  - rewrite append_cons. simpl. rewrite IH.
    destruct (Ascii.eqb c sep); [reflexivity|].
    pose proof (split_not_nil sep r) as Hnil.
    destruct (split sep r) as [|seg segs]; [congruence | reflexivity].
Qed.

Lemma split_without_sep sep s : ~ occurs sep s -> split sep s = [s].
Proof.
  induction s as [|c r IH]; intros Hno; simpl; [reflexivity|].
  simpl in Hno. destruct (Ascii.eqb_spec c sep) as [->|Hne]; [tauto|].
  rewrite IH by tauto. reflexivity.
Qed.

(** Splitting undoes joining, for segments that hold no separator. *)
Lemma split_join sep fs :
  fs <> [] -> Forall (fun f => ~ occurs sep f) fs ->
  split sep (join (String sep EmptyString) fs) = fs.
Proof.
  intros Hne Hall. induction Hall as [|f fs Hf Hall IH]; [congruence|].
  destruct fs as [|g fs].
  - simpl. now apply split_without_sep.
  - change (join (String sep EmptyString) (f :: g :: fs))
      with (f +:+ String sep EmptyString +:+ join (String sep EmptyString) (g :: fs)).
    rewrite append_cons, append_empty, split_sep_app.
    rewrite (split_without_sep sep f Hf), IH by discriminate. reflexivity.
Qed.

(** The comprehension of [_parse_fields] is what it returns for every
    string, the empty one too. *)
Lemma parse_fields_comprehension (raw : string) :
  _parse_fields (Some raw)
  = strip <$> filter (fun field => truthy (strip field) = true) (split "," raw).
Proof. destruct raw; reflexivity. Qed.

Lemma lstrip_fixed s :
  match s with
  | EmptyString => True
  | String c _ => isspace c = false
  end -> lstrip s = s.
Proof. destruct s as [|c r]; simpl; [reflexivity|]. now intros ->. Qed.

Lemma rstrip_fixed s :
  match last_char s with
  | None => True
  | Some c => isspace c = false
  end -> rstrip s = s.
Proof.
  induction s as [|c r IH]; [reflexivity|].
  intros Hlast. cbn [rstrip]. destruct r as [|c' r'].
  - simpl in Hlast |- *. now rewrite Hlast.
  - rewrite IH by exact Hlast. cbn [truthy negb]. now rewrite andb_false_r.
Qed.

(** Stripping a stripped string changes nothing. *)
Lemma strip_idemp s : strip (strip s) = strip s.
Proof.
  destruct (strip_spec s) as [Hhd Hlast].
  unfold strip at 1. rewrite rstrip_fixed.
  - now apply lstrip_fixed.
  - destruct (last_char (strip s)); [exact Hlast | exact I].
Qed.

Lemma parse_fields_of_clean fs :
  Forall (fun f => f <> EmptyString /\ strip f = f /\ ~ occurs "," f) fs ->
  _parse_fields (Some (join "," fs)) = fs.
Proof.
  intros Hall. destruct fs as [|f0 fs0]; [reflexivity|].
  rewrite parse_fields_comprehension, split_join;
    [|discriminate | eapply Forall_impl; [exact Hall | cbn; tauto]].
  induction Hall as [|f fs (Hne & Hstrip & _) _ IH]; [reflexivity|].
  rewrite filter_cons, Hstrip.
  apply truthy_true in Hne.
  destruct (decide (truthy f = true)); [|contradiction].
  rewrite fmap_cons, Hstrip. f_equal. exact IH.
Qed.

(** X1: a list of field names that are non-empty, trimmed and free of
    commas is read back from its comma-joined form as it is, order and
    duplicates included. *)
Theorem parse_fields_join fs :
  Forall (fun f => f <> EmptyString /\ strip f = f /\ ~ occurs "," f) fs ->
  _parse_fields (Some (join "," fs)) = fs.
Proof. exact (parse_fields_of_clean fs). Qed.

(** X2: the fields of two raw strings joined by a comma are the fields of
    the first followed by the fields of the second. *)
Theorem parse_fields_comma (s t : string) :
  _parse_fields (Some (s +:+ String "," t))
  = _parse_fields (Some s) ++ _parse_fields (Some t).
Proof.
  rewrite !parse_fields_comprehension, split_sep_app.
  now rewrite filter_app, fmap_app.
Qed.

(** X3: what [_parse_fields] returns is a fixed point: joined by commas
    and parsed again, the list of fields is the same. *)
Theorem parse_fields_idempotent (raw : option string) :
  _parse_fields (Some (join "," (_parse_fields raw))) = _parse_fields raw.
Proof.
  apply parse_fields_of_clean.
  unfold _parse_fields. destruct raw as [raw|]; [|constructor].
  destruct (truthy raw); [|constructor]. cbn [negb].
  apply Forall_fmap, Forall_forall. intros seg Hin.
  apply list_elem_of_filter in Hin as [Hne Hin]. cbn.
  split; [now apply truthy_true|]. split; [apply strip_idemp|].
  intros Hocc. apply occurs_strip in Hocc.
  pose proof (split_no_sep "," raw) as Hall.
  rewrite Forall_forall in Hall. exact (Hall _ Hin Hocc).
Qed.

End NormalizerLaws.

(* ================================================================== *)
(** * Further properties of the endpoint *)
(* ================================================================== *)

Section EndpointLaws.

Context {data : Type}.
Variable cfg : Config.
Variable scraper : list call -> call -> result data.
Variable json_dumps : @JsonDict data -> string.
Variable json_refuses : data -> option exn.

Abbreviation dispatch := (dispatch cfg scraper json_dumps json_refuses).
Abbreviation handler := (handler cfg scraper json_dumps json_refuses).
Abbreviation handler_of := (handler_of cfg scraper).
Abbreviation _build_response := (_build_response json_dumps json_refuses).
Abbreviation built := (built json_dumps).
Abbreviation respond := (respond json_dumps json_refuses).

Implicit Types (args : gmap string string) (log : list call) (a : action).

Lemma falsy_present args (key : string) :
  falsy (args !! key) = false -> present args key.
Proof.
  unfold falsy, present. destruct (args !! key) as [v|]; [|discriminate].
  intros Hv. exists v. split; [reflexivity|].
  apply truthy_true. now destruct (truthy v).
Qed.

(** *** The headers *)

Lemma respond_headers (o : result (@HandlerResult data) * list call)
    (resp : response) log :
  respond o = (Ret resp, log) -> headers resp = base_headers.
Proof.
  destruct o as [[[st p]|e] log']; cbn [respond].
  - unfold _build_response. destruct (dumps json_dumps json_refuses p).
    + intros [= <- _]. reflexivity.
    + discriminate.
  - destruct e; intros [= <- _]; reflexivity.
Qed.

Lemma dispatch_headers args log (resp : response) log' :
  dispatch args log = (Ret resp, log') -> headers resp = base_headers.
Proof.
  destruct (string_dec (lower (the (args !! "action"))) EmptyString) as [He|Hne].
  - rewrite (dispatch_no_action cfg scraper json_dumps json_refuses args log He).
    intros [= <- _]. reflexivity.
  - destruct (action_name_dec (lower (the (args !! "action")))) as [[a Ha]|Hk].
    + rewrite (dispatch_known cfg scraper json_dumps json_refuses a args log Ha).
      apply respond_headers.
    + rewrite (dispatch_unknown cfg scraper json_dumps json_refuses args log Hne Hk).
      intros [= <- _]. reflexivity.
Qed.

(** X4: every response of the handler allows every origin and declares
    JSON content; the answer to a pre-flight request has, besides these
    two headers, the allowed methods and headers and no other, and every
    other response has these two headers only. *)
Theorem response_headers (request : request) log (resp : response) log' :
  handler request log = (Ret resp, log') ->
  headers resp !! "Access-Control-Allow-Origin" = Some "*" /\
  headers resp !! "Content-Type" = Some "application/json" /\
  (method request = "OPTIONS" ->
   headers resp
   = <["Content-Type" := "application/json"]>
     (<["Access-Control-Allow-Origin" := "*"]>
     (<["Access-Control-Allow-Methods" := "GET, OPTIONS"]>
     (<["Access-Control-Allow-Headers" := "*"]> ∅)))) /\
  (method request <> "OPTIONS" ->
   headers resp
   = <["Content-Type" := "application/json"]>
     (<["Access-Control-Allow-Origin" := "*"]> ∅)).
Proof.
  unfold handler. destruct (String.eqb_spec (method request) "OPTIONS") as [Hm|Hm].
  - intros [= <- _]. repeat split; try reflexivity. contradiction.
  - intros Hd. apply dispatch_headers in Hd. rewrite Hd.
    repeat split; try reflexivity. contradiction.
Qed.

(** *** Calls and statuses *)

(** X5: the handler issues at most one call per request.  When it issues
    none it answers 204 or 400.  When it issues one, it answers 502 if the
    call raised the domain error and 500 if it raised another exception;
    if the call returned a result, it answers 200 when [json.dumps]
    accepts the result, and otherwise the exception of [json.dumps]
    leaves the handler and there is no response.  So a request that is
    refused costs no call, and nothing is answered 200 without a call
    that returned. *)
Theorem status_and_calls (request : request) log :
  (exists resp,
     handler request log = (Ret resp, log) /\
     (status resp = 204 \/ status resp = 400)) \/
  (exists c,
     snd (handler request log) = log ++ [c] /\
     match scraper log c with
     | Ret d =>
         match json_refuses d with
         | None =>
             exists resp,
               fst (handler request log) = Ret resp /\ status resp = 200
         | Some e => fst (handler request log) = Raise e
         end
     | Raise (GPlayScraperError _) =>
         exists resp, fst (handler request log) = Ret resp /\ status resp = 502
     | Raise _ =>
         exists resp, fst (handler request log) = Ret resp /\ status resp = 500
     end).
Proof.
  unfold handler. destruct (String.eqb (method request) "OPTIONS").
  { left. eexists. split; [reflexivity|]. now left. }
  generalize (args request). intros q.
  destruct (string_dec (lower (the (q !! "action"))) EmptyString) as [He|Hne].
  { rewrite (dispatch_no_action cfg scraper json_dumps json_refuses q log He).
    left. eexists. split; [reflexivity|]. now right. }
  destruct (action_name_dec (lower (the (q !! "action")))) as [[a Ha]|Hk].
  - destruct (falsy (q !! required_identifier a)) eqn:Hid.
    + rewrite (dispatch_known cfg scraper json_dumps json_refuses a q log Ha).
      rewrite (handler_of_missing cfg scraper a q log Hid).
      left. eexists. split; [reflexivity|]. now right.
    + apply falsy_present in Hid.
      destruct (dispatch_present cfg scraper json_dumps json_refuses a q log Ha Hid)
        as (c & Hrun & _).
      right. exists c. rewrite Hrun, respond_call. split; [reflexivity|].
      destruct (scraper log c) as [d|e].
      * destruct (json_refuses d); [reflexivity|].
        eexists. split; reflexivity.
      * destruct e; (eexists; split; reflexivity).
  - rewrite (dispatch_unknown cfg scraper json_dumps json_refuses q log Hne Hk).
    left. eexists. split; [reflexivity|]. now right.
Qed.

(** *** The parameters a handler reads *)

Lemma handler_of_reads a args args' log :
  (forall k, k ∈ reads a -> args !! k = args' !! k) ->
  handler_of a args log = handler_of a args' log.
Proof.
  intros Heq.
  assert (Hk : forall k, In k (reads a) -> args !! k = args' !! k)
    by (intros k Hin; apply Heq, list_elem_of_In, Hin).
  destruct a; cbn [reads In] in Hk;
    unfold handler_of, _handle_app, _handle_search, _handle_reviews,
      _handle_developer, get_default, get_or_None;
    repeat match goal with
           | |- context [args !! ?k] => rewrite (Hk k) by tauto
           end;
    reflexivity.
Qed.

(** X6: the answer to a request depends on the action and on the
    parameters the handler of the action reads, and on nothing else in the
    request: two requests for the same action that agree on these
    parameters get the same response and cause the same call. *)
Theorem unread_parameters_ignored a args args' log :
  lower (the (args !! "action")) = action_name a ->
  lower (the (args' !! "action")) = action_name a ->
  (forall k, k ∈ reads a -> args !! k = args' !! k) ->
  dispatch args log = dispatch args' log.
Proof.
  intros Ha Ha' Heq.
  rewrite (dispatch_known cfg scraper json_dumps json_refuses a args log Ha).
  rewrite (dispatch_known cfg scraper json_dumps json_refuses a args' log Ha').
  now rewrite (handler_of_reads a args args' log Heq).
Qed.

(** *** The arguments of the call *)

(** X7: the identifier reaches the scraper as it stands in the request:
    it is neither trimmed nor changed in case. *)
Theorem identifier_forwarded_verbatim a args log (v : string) :
  lower (the (args !! "action")) = action_name a ->
  args !! required_identifier a = Some v ->
  v <> EmptyString ->
  exists c,
    snd (dispatch args log) = log ++ [c] /\
    call_action c = a /\
    call_identifier c = v.
Proof.
  intros Ha Hv Hne.
  assert (Hid : falsy (args !! required_identifier a) = false).
  { rewrite Hv. cbn. apply truthy_true in Hne. now rewrite Hne. }
  destruct (handler_of_present cfg scraper a args log Hid)
    as (c & Hrun & Hact & Hident & _).
  exists c. rewrite (dispatch_known cfg scraper json_dumps json_refuses a args log Ha), Hrun.
  rewrite respond_log. split; [reflexivity|]. split; [exact Hact|].
  rewrite Hident, Hv. reflexivity.
Qed.

(** X8: for the actions that take a count, a count parameter that is
    absent, empty, or not an integer literal makes the handler pass the
    default count of its own action. *)
Theorem default_count_forwarded a args log :
  lower (the (args !! "action")) = action_name a ->
  present args (required_identifier a) ->
  (args !! "count" = None \/
   exists s, args !! "count" = Some s /\
             (s = EmptyString \/ exists e, int s = Raise e)) ->
  exists c,
    snd (dispatch args log) = log ++ [c] /\
    call_action c = a /\
    call_count c = default_count cfg a.
Proof.
  intros Ha Hid Hcount.
  destruct (dispatch_present cfg scraper json_dumps json_refuses a args log Ha Hid)
    as (c & Hrun & _ & Hact & _ & _ & Hc & _).
  exists c. rewrite Hrun, respond_log. split; [reflexivity|].
  split; [exact Hact|]. rewrite Hc.
  assert (Hd : forall d, count_of (args !! "count") d = d).
  { intros d. unfold count_of.
    destruct Hcount as [-> | (s & -> & [-> | [e He]])]; [reflexivity..|].
    now rewrite (parse_int_not_literal s e d He). }
  unfold action_count, default_count. destruct a; now rewrite ?Hd.
Qed.

(** X9: a fields parameter of commas and white space only selects the
    full analysis, as an absent one does. *)
Theorem blank_fields_select_analysis a args log (raw : string) :
  lower (the (args !! "action")) = action_name a ->
  present args (required_identifier a) ->
  args !! "fields" = Some raw ->
  (forall ch, occurs ch raw -> ch = ","%char \/ isspace ch = true) ->
  exists c,
    snd (dispatch args log) = log ++ [c] /\
    call_action c = a /\
    is_analyze c = true /\
    call_fields c = None.
Proof.
  intros Ha Hid Hraw Hblank.
  destruct (dispatch_present cfg scraper json_dumps json_refuses a args log Ha Hid)
    as (c & Hrun & _ & Hact & _ & _ & _ & _ & _ & Hfields & Hkind).
  exists c. rewrite Hrun, respond_log. split; [reflexivity|].
  split; [exact Hact|].
  assert (Hnil : _parse_fields (args !! "fields") = []).
  { rewrite Hraw, parse_fields_comprehension, comprehension_strip.
    now apply fields_blank. }
  rewrite Hnil in Hfields, Hkind. split; assumption.
Qed.

End EndpointLaws.

(* ================================================================== *)
(** * Further properties of count parsing *)
(* ================================================================== *)

Section CountLaws.

Implicit Types (s r : string) (c : ascii).

Lemma skip_space_occurs c s :
  occurs c s -> int_isspace c = true \/ occurs c (skip_space s).
Proof.
  induction s as [|c0 r IH]; simpl; [tauto|].
  destruct (int_isspace c0) eqn:Hc0.
  - intros [<-|H]; [now left | now apply IH].
  - intros H. now right.
Qed.

Lemma skip_space_blank s :
  truthy (skip_space s) = false -> forall c, occurs c s -> int_isspace c = true.
Proof.
  induction s as [|c0 r IH]; simpl; [tauto|].
  destruct (int_isspace c0) eqn:Hc0; [|discriminate].
  intros Hr c [<-|H]; [exact Hc0 | now apply IH].
Qed.

Lemma scan_digits_occurs s : forall acc prev v rest,
  scan_digits acc prev s = Some (v, rest) ->
  forall c, occurs c s -> isdigit c = true \/ c = "_"%char \/ occurs c rest.
Proof.
  induction s as [|c0 r IH]; intros acc prev v rest Hscan c Hc; [destruct Hc|].
  simpl in Hscan. destruct (isdigit c0) eqn:Hd.
  - destruct Hc as [<-|Hc]; [now left | exact (IH _ _ _ _ Hscan c Hc)].
  - destruct (Ascii.eqb_spec c0 "_") as [->|Hne].
    + destruct prev; [|discriminate].
      destruct Hc as [<-|Hc]; [right; now left | exact (IH _ _ _ _ Hscan c Hc)].
    + destruct prev; [|discriminate].
      injection Hscan as _ <-. right. right. exact Hc.
Qed.

Lemma sign_split (body : string) :
  exists neg digits,
    match body with
    | String "-" r => (true, r)
    | String "+" r => (false, r)
    | _ => (false, body)
    end = (neg, digits) /\
    forall c, occurs c body ->
              c = "-"%char \/ c = "+"%char \/ occurs c digits.
Proof.
  destruct body as [|c0 r].
  - exists false, EmptyString. split; [reflexivity | intros c []].
  - destruct c0 as [[] [] [] [] [] [] [] []];
      (eexists _, _; split; [reflexivity|]; intros c Hc;
       first [ right; right; exact Hc
             | destruct Hc as [<-|Hc];
               [ first [left; reflexivity | right; left; reflexivity]
               | right; right; exact Hc ] ]).
Qed.

(** The characters of an integer literal: digits, signs, underscores and
    white space. *)
Lemma int_characters s (z : Z) c :
  int s = Ret z -> occurs c s ->
  isdigit c = true \/ int_isspace c = true \/
  c = "+"%char \/ c = "-"%char \/ c = "_"%char.
Proof.
  unfold int. intros Hint Hc.
  destruct (sign_split (skip_space s)) as (neg & digits & Hsign & Hchars).
  rewrite Hsign in Hint.
  destruct (scan_digits 0 false digits) as [[v rest]|] eqn:Hscan; [|discriminate].
  destruct (truthy (skip_space rest)) eqn:Hrest; [discriminate|].
  destruct (skip_space_occurs c s Hc) as [Hsp|Hbody]; [tauto|].
  destruct (Hchars c Hbody) as [->|[->|Hdig]]; [tauto..|].
  destruct (scan_digits_occurs _ _ _ _ _ Hscan c Hdig) as [Hd|[->|Hr]]; [tauto..|].
  right. left. exact (skip_space_blank rest Hrest c Hr).
Qed.

(** X10: a count that holds a character other than a digit, a sign, an
    underscore or white space is not read as a number: a decimal point,
    a letter or a thousands comma gives the default. *)
Theorem parse_int_rejects (value : string) (default : Z) c :
  occurs c value ->
  isdigit c = false -> int_isspace c = false ->
  c <> "+"%char -> c <> "-"%char -> c <> "_"%char ->
  _parse_int (Some value) default = Ret default.
Proof.
  intros Hc Hd Hs Hp Hm Hu.
  destruct (int value) as [z|e] eqn:Hint.
  - destruct (int_characters value z c Hint Hc) as [H|[H|[H|[H|H]]]]; congruence.
  - exact (parse_int_not_literal value e default Hint).
Qed.

(** White space around a count. *)

Lemma skip_space_prefix (ws s : string) :
  (forall c, occurs c ws -> int_isspace c = true) ->
  skip_space (ws +:+ s) = skip_space s.
Proof.
  induction ws as [|w ws IH]; intros Hws; [reflexivity|].
  rewrite append_cons. simpl. rewrite (Hws w) by (simpl; tauto).
  apply IH. intros c Hc. apply Hws. simpl. tauto.
Qed.

Lemma skip_space_all (ws : string) :
  (forall c, occurs c ws -> int_isspace c = true) ->
  skip_space ws = EmptyString.
Proof.
  induction ws as [|w ws IH]; intros Hws; [reflexivity|].
  simpl. rewrite (Hws w) by (simpl; tauto).
  apply IH. intros c Hc. apply Hws. simpl. tauto.
Qed.

Lemma skip_space_suffix (s ws : string) :
  (forall c, occurs c ws -> int_isspace c = true) ->
  skip_space (s +:+ ws)
  = if truthy (skip_space s) then skip_space s +:+ ws else EmptyString.
Proof.
  intros Hws. induction s as [|c0 r IH].
  - rewrite append_empty. simpl. now apply skip_space_all.
  - rewrite append_cons. simpl. destruct (int_isspace c0); [exact IH|].
    reflexivity.
Qed.

Lemma space_not_digit c :
  int_isspace c = true -> isdigit c = false /\ Ascii.eqb c "_" = false.
Proof. destruct c as [[] [] [] [] [] [] [] []]; vm_compute; intuition congruence. Qed.

Lemma scan_digits_suffix (ws : string) :
  (forall c, occurs c ws -> int_isspace c = true) ->
  forall s acc prev,
    scan_digits acc prev (s +:+ ws)
    = match scan_digits acc prev s with
      | Some (v, rest) => Some (v, rest +:+ ws)
      | None => None
      end.
Proof.
  intros Hws. induction s as [|c0 r IH]; intros acc prev.
  - rewrite append_empty. destruct ws as [|w ws'].
    + simpl. destruct prev; reflexivity.
    + destruct (space_not_digit w) as [Hd Hu]; [apply Hws; simpl; tauto|].
      simpl. rewrite Hd, Hu. destruct prev; reflexivity.
  - rewrite append_cons. simpl. destruct (isdigit c0); [apply IH|].
    destruct (Ascii.eqb c0 "_").
    + destruct prev; [apply IH | reflexivity].
    + destruct prev; reflexivity.
Qed.

Lemma sign_suffix (c0 : ascii) (r ws : string) :
  match String c0 (r +:+ ws) with
  | String "-" r0 => (true, r0)
  | String "+" r0 => (false, r0)
  | _ => (false, String c0 (r +:+ ws))
  end
  = let '(neg, digits) :=
      match String c0 r with
      | String "-" r0 => (true, r0)
      | String "+" r0 => (false, r0)
      | _ => (false, String c0 r)
      end in
    (neg, digits +:+ ws).
Proof. destruct c0 as [[] [] [] [] [] [] [] []]; reflexivity. Qed.

(** The value of a literal, or nothing. *)
Lemma int_suffix (s ws : string) (z : Z) :
  (forall c, occurs c ws -> int_isspace c = true) ->
  int (s +:+ ws) = Ret z <-> int s = Ret z.
Proof.
  intros Hws. unfold int. rewrite (skip_space_suffix s ws Hws).
  destruct (skip_space s) as [|c0 r] eqn:Hbody; [cbn; split; discriminate|].
  cbn [truthy]. rewrite append_cons, sign_suffix.
  destruct (match String c0 r with
            | String "-" r0 => (true, r0)
            | String "+" r0 => (false, r0)
            | _ => (false, String c0 r)
            end) as [neg digits].
  rewrite (scan_digits_suffix ws Hws).
  destruct (scan_digits 0 false digits) as [[v rest]|]; [|split; discriminate].
  rewrite (skip_space_suffix rest ws Hws).
  destruct (skip_space rest) as [|c1 r1]; cbn [truthy].
  - reflexivity.
  - rewrite append_cons. cbn [truthy]. split; discriminate.
Qed.

Lemma int_prefix (ws s : string) (z : Z) :
  (forall c, occurs c ws -> int_isspace c = true) ->
  int (ws +:+ s) = Ret z <-> int s = Ret z.
Proof.
  intros Hws. unfold int. rewrite (skip_space_prefix ws s Hws).
  destruct (match skip_space s with
            | String "-" r0 => (true, r0)
            | String "+" r0 => (false, r0)
            | _ => (false, skip_space s)
            end) as [neg digits].
  destruct (scan_digits 0 false digits) as [[v rest]|]; [|split; discriminate].
  destruct (truthy (skip_space rest)); [split; discriminate | reflexivity].
Qed.

(** X11: white space before and after a count does not matter: the
    padded string is read as the string itself is. *)
Theorem parse_int_padding (ws value ws' : string) (default : Z) :
  (forall c, occurs c ws -> int_isspace c = true) ->
  (forall c, occurs c ws' -> int_isspace c = true) ->
  _parse_int (Some (ws +:+ value +:+ ws')) default
  = _parse_int (Some value) default.
Proof.
  intros Hws Hws'.
  assert (Hiff : forall z, int (ws +:+ value +:+ ws') = Ret z <-> int value = Ret z).
  { intros z. rewrite (int_prefix ws _ z Hws). apply int_suffix, Hws'. }
  destruct (int (ws +:+ value +:+ ws')) as [z|e] eqn:Hpad.
  - rewrite (parse_int_literal _ z default Hpad).
    now rewrite (parse_int_literal _ z default (proj1 (Hiff z) eq_refl)).
  - rewrite (parse_int_not_literal _ e default Hpad).
    destruct (int value) as [z|e'] eqn:Hval.
    + discriminate (proj2 (Hiff z) eq_refl).
    + destruct value as [|c r]; [reflexivity|].
      now rewrite (parse_int_not_literal _ e' default Hval).
Qed.

End CountLaws.

(* ================================================================== *)
(** * Further properties of the front end *)
(* ================================================================== *)

Section FrontEndLaws.

Context {data : Type}.
Variable scraper : list call -> call -> result data.
Variable json_dumps : data -> result string.
Variable intvar_get : string -> result Z.

Abbreviation worker_step := (UI.worker_step scraper).
Abbreviation mainloop_step := (UI.mainloop_step json_dumps).
Abbreviation transition := (UI.transition scraper json_dumps intvar_get).
Abbreviation read_press := (UI.read_press intvar_get).
Abbreviation on_press := (UI.on_press intvar_get).

Implicit Types (st : @UI.ui data) (c : call) (i : nat) (t : UI.thread).

(** *** The clicks *)

Lemma run_async_effect st c :
  UI.threads (UI._run_async st c) = UI.threads st ++ [UI.fresh c] /\
  UI.status_var (UI._run_async st c) = "Running..." /\
  UI.result_text (UI._run_async st c) = EmptyString /\
  UI.dialogs (UI._run_async st c) = UI.dialogs st /\
  UI.calls (UI._run_async st c) = UI.calls st /\
  UI.after_queue (UI._run_async st c) = UI.after_queue st.
Proof. repeat split. Qed.

(** The command of a button, once its arguments are evaluated, never
    calls the scraper and never queues a callback; it starts one run, or,
    for a Get Fields button without a field, shows the dialog. *)
Lemma command_effect st (k : UI.click) :
  UI.calls (UI.on_click st k) = UI.calls st /\
  UI.after_queue (UI.on_click st k) = UI.after_queue st /\
  ((exists c,
      UI.on_click st k = UI._run_async st c /\
      match k with
      | UI.analyze k => c = UI.analyze_call k /\ is_analyze c = true
      | UI.get_fields g =>
          is_get_fields c = true /\
          call_fields c = Some (UI._split_fields (UI.fields_text g)) /\
          UI._split_fields (UI.fields_text g) <> []
      end) \/
   (exists g,
      k = UI.get_fields g /\
      UI._split_fields (UI.fields_text g) = [] /\
      UI.on_click st k = UI.show st UI.fields_required)).
Proof.
  destruct k as [k|g].
  - split; [destruct k; reflexivity|]. split; [destruct k; reflexivity|].
    left. exists (UI.analyze_call k).
    destruct k; repeat split.
  - cbn [UI.on_click].
    destruct (UI._split_fields (UI.fields_text g)) as [|f fs] eqn:Hf.
    + assert (Heq : UI.on_get_fields st g = UI.show st UI.fields_required)
        by (destruct g; cbn [UI.fields_text] in Hf; cbn [UI.on_get_fields]; rewrite Hf;
            reflexivity).
      rewrite Heq. split; [reflexivity|]. split; [reflexivity|].
      right. exists g. repeat split. exact Hf.
    + assert (Hrun : exists c,
                 UI.on_get_fields st g = UI._run_async st c /\
                 is_get_fields c = true /\ call_fields c = Some (f :: fs))
        by (destruct g; cbn [UI.fields_text] in Hf; cbn [UI.on_get_fields];
            rewrite Hf; eexists; repeat split).
      destruct Hrun as (c & Heq & Hkind & Hfields). rewrite Heq.
      split; [reflexivity|]. split; [reflexivity|].
      left. exists c. repeat split; try assumption. discriminate.
Qed.

(** The arguments of a button's command are evaluated without an
    exception unless the tab has a spin box whose text does not read as an
    integer. *)
Lemma read_press_cases (p : UI.press) :
  match read_press p with
  | Ret k =>
      match UI.count_text p with
      | Some n => exists count, intvar_get n = Ret count
      | None => True
      end
  | Raise e => exists n, UI.count_text p = Some n /\ intvar_get n = Raise e
  end.
Proof.
  destruct p; cbn [UI.read_press UI.count_text]; try exact I;
    match goal with
    | |- context [intvar_get ?n] =>
        destruct (intvar_get n) as [z|e] eqn:Hn; eauto

    end.
Qed.

(** X12: a press of a button never calls the scraper and never queues a
    callback.  When the count of the tab does not read as an integer the
    press raises the exception of the read and changes nothing: no worker
    starts and no dialog is shown.  Otherwise a press of an analysis
    button starts exactly one worker, whatever the other entries hold, an
    empty identifier included, and a press of a Get Fields button starts
    one worker when the fields text holds a field and shows the dialog
    otherwise.  A started run sets the status to [Running...] and empties
    the result viewer. *)
Theorem click_effect st (p : UI.press) :
  UI.calls (snd (on_press st p)) = UI.calls st /\
  UI.after_queue (snd (on_press st p)) = UI.after_queue st /\
  match read_press p with
  | Raise e =>
      (exists n, UI.count_text p = Some n /\ intvar_get n = Raise e) /\
      on_press st p = (Raise e, st)
  | Ret k =>
      match UI.count_text p with
      | Some n => exists count, intvar_get n = Ret count
      | None => True
      end /\
      fst (on_press st p) = Ret tt /\
      ((exists c,
          snd (on_press st p) = UI._run_async st c /\
          UI.threads (snd (on_press st p)) = UI.threads st ++ [UI.fresh c] /\
          UI.status_var (snd (on_press st p)) = "Running..." /\
          UI.result_text (snd (on_press st p)) = EmptyString /\
          UI.dialogs (snd (on_press st p)) = UI.dialogs st /\
          match k with
          | UI.analyze k => c = UI.analyze_call k /\ is_analyze c = true
          | UI.get_fields g =>
              is_get_fields c = true /\
              call_fields c = Some (UI._split_fields (UI.fields_text g)) /\
              UI._split_fields (UI.fields_text g) <> []
          end) \/
       (exists g,
          k = UI.get_fields g /\
          UI._split_fields (UI.fields_text g) = [] /\
          snd (on_press st p) = UI.show st UI.fields_required /\
          UI.threads (snd (on_press st p)) = UI.threads st))
  end.
Proof.
  pose proof (read_press_cases p) as Hread. unfold UI.on_press.
  destruct (read_press p) as [k|e]; cbn [fst snd].
  - destruct (command_effect st k) as (Hcalls & Hqueue & Heffect).
    split; [exact Hcalls|]. split; [exact Hqueue|].
    split; [exact Hread|]. split; [reflexivity|].
    destruct Heffect as [(c & Heq & Hkind) | (g & -> & Hnone & Heq)].
    + left. exists c. rewrite Heq. repeat (split; [reflexivity|]). exact Hkind.
    + right. exists g. rewrite Heq. repeat split. exact Hnone.
  - repeat split. exact Hread.
Qed.

(** *** The worker and the main loop *)

(** X13: a step of a worker leaves the status, the result viewer and the
    dialogs as they are and starts no worker; it calls the scraper only
    from before the wrapped call, once, on the worker's own operation,
    and queues exactly one callback then and none otherwise. *)
Theorem worker_keeps_presentation st i st' :
  worker_step st i = Some st' ->
  UI.status_var st' = UI.status_var st /\
  UI.result_text st' = UI.result_text st /\
  UI.dialogs st' = UI.dialogs st /\
  length (UI.threads st') = length (UI.threads st) /\
  exists t,
    UI.threads st !! i = Some t /\
    match UI.pos t with
    | UI.at_call =>
        UI.calls st' = UI.calls st ++ [UI.target t] /\
        UI.after_queue st'
        = UI.after_queue st
          ++ [UI.callback_of i (scraper (UI.calls st) (UI.target t))]
    | _ =>
        UI.calls st' = UI.calls st /\ UI.after_queue st' = UI.after_queue st
    end.
Proof.
  unfold UI.worker_step. destruct (UI.threads st !! i) as [t|] eqn:Ht; [|discriminate].
  destruct (UI.pos t) eqn:Hpos; [| |discriminate].
  - destruct (scraper (UI.calls st) (UI.target t)) as [d|e] eqn:Hc.
    + intros [= <-]. cbn. rewrite length_insert.
      repeat (split; [reflexivity|]). exists t. rewrite Hpos, Hc.
      split; [reflexivity|]. split; reflexivity.
    + intros [= <-]. cbn. rewrite length_insert.
      repeat (split; [reflexivity|]). exists t. rewrite Hpos, Hc.
      split; [reflexivity|]. split; [reflexivity|].
      destruct e; reflexivity.
  - intros [= <-]. cbn. rewrite length_insert.
    repeat (split; [reflexivity|]). exists t. rewrite Hpos.
    split; [reflexivity|]. split; reflexivity.
Qed.

Lemma run_callback_frame st (cb : UI.callback) :
  UI.threads (snd (UI.run_callback json_dumps st cb)) = UI.threads st /\
  UI.calls (snd (UI.run_callback json_dumps st cb)) = UI.calls st /\
  UI.after_queue (snd (UI.run_callback json_dumps st cb)) = UI.after_queue st.
Proof.
  destruct cb as [d|prefix frame]; cbn [UI.run_callback].
  - unfold UI._handle_success, UI._display_result.
    destruct (json_dumps d); repeat split.
  - destruct (UI.read_exc st frame); repeat split.
Qed.

(** X14: a turn of the main loop takes exactly the oldest callback off
    the queue, calls the scraper never and starts or changes no worker.
    The callback either returns or raises: a success callback raises the
    exception of the serializer when the serializer refuses the result,
    and an error callback raises [NameError]; no callback raises anything
    else, and when one raises, the status, the result viewer and the
    dialogs are as they were. *)
Theorem mainloop_keeps_workers st (r : result unit) st' :
  mainloop_step st = Some (r, st') ->
  UI.calls st' = UI.calls st /\
  UI.threads st' = UI.threads st /\
  exists cb,
    UI.after_queue st = cb :: UI.after_queue st' /\
    (r = Ret tt \/
     exists e,
       r = Raise e /\
       match cb with
       | UI.on_success d => json_dumps d = Raise e
       | UI.on_error _ _ => exists msg, e = NameError msg
       end /\
       UI.status_var st' = UI.status_var st /\
       UI.result_text st' = UI.result_text st /\
       UI.dialogs st' = UI.dialogs st).
Proof.
  unfold UI.mainloop_step.
  destruct (UI.after_queue st) as [|cb rest] eqn:Hq; [discriminate|].
  intros [= Hrun].
  set (st0 := {| UI.status_var := UI.status_var st;
                 UI.result_text := UI.result_text st;
                 UI.dialogs := UI.dialogs st; UI.after_queue := rest;
                 UI.threads := UI.threads st; UI.calls := UI.calls st |}) in Hrun.
  destruct (run_callback_frame st0 cb) as (Hth & Hcalls & Hqueue).
  rewrite Hrun in Hth, Hcalls, Hqueue. cbn in Hth, Hcalls, Hqueue.
  split; [exact Hcalls|]. split; [exact Hth|].
  exists cb. split; [now rewrite Hqueue|].
  destruct cb as [d|prefix frame]; cbn [UI.run_callback] in Hrun.
  - unfold UI._handle_success, UI._display_result in Hrun.
    destruct (json_dumps d) as [pretty|e] eqn:Hd.
    + injection Hrun as <- _. now left.
    + injection Hrun as <- <-. right. exists e. repeat split.
  - unfold UI.read_exc in Hrun. cbn in Hrun.
    destruct (UI.threads st !! frame) as [[tg p [e|]]|];
      injection Hrun as <- <-;
      first [now left | right; eexists; repeat split; eauto].
Qed.

(** *** What every reachable state satisfies *)

Lemma called_app (l : list UI.thread) t :
  UI.called (l ++ [t])
  = (UI.called l + match UI.pos t with UI.at_call => 0 | _ => 1 end)%nat.
Proof.
  induction l as [|t0 l IH]; simpl.
  - destruct (UI.pos t); reflexivity.
  - rewrite IH. destruct (UI.pos t0); reflexivity.
Qed.

Lemma called_insert (l : list UI.thread) i t t' :
  l !! i = Some t ->
  (UI.called (<[i := t']> l) + match UI.pos t with UI.at_call => 0 | _ => 1 end
   = UI.called l + match UI.pos t' with UI.at_call => 0 | _ => 1 end)%nat.
Proof.
  revert i. induction l as [|t0 l IH]; intros i Hi; [discriminate|].
  destruct i as [|i]; simpl in *.
  - injection Hi as ->. destruct (UI.pos t), (UI.pos t'); lia.
  - specialize (IH i Hi). destruct (UI.pos t0); lia.
Qed.

Lemma click_cases st (k : UI.click) :
  (exists c, UI.on_click st k = UI._run_async st c) \/
  UI.on_click st k = UI.show st UI.fields_required.
Proof.
  destruct k as [k|g]; [left; destruct k; eexists; reflexivity|].
  destruct g; cbn [UI.on_click UI.on_get_fields];
    destruct (UI._split_fields _); cbn; eauto.
Qed.

Lemma press_cases st (p : UI.press) :
  snd (on_press st p) = st \/ exists k, snd (on_press st p) = UI.on_click st k.
Proof.
  unfold UI.on_press. destruct (read_press p) as [k|e]; cbn [snd]; eauto.
Qed.

Lemma consistent_run_async st c :
  UI.consistent st -> UI.consistent (UI._run_async st c).
Proof.
  intros (Hcalls & Hqueue & Hexc & Hframes). unfold UI.consistent. cbn.
  rewrite called_app. cbn. rewrite Nat.add_0_r.
  split; [exact Hcalls|]. split; [exact Hqueue|]. split.
  - apply Forall_app. split; [exact Hexc|].
    constructor; [|constructor]. cbn. split; [congruence | discriminate].
  - eapply Forall_impl; [exact Hframes|].
    intros [d|prefix j]; [tauto|]. rewrite length_app. cbn. lia.
Qed.

Lemma consistent_worker st i st' :
  UI.consistent st -> worker_step st i = Some st' -> UI.consistent st'.
Proof.
  intros (Hcalls & Hqueue & Hexc & Hframes). unfold UI.worker_step.
  destruct (UI.threads st !! i) as [t|] eqn:Ht; [|discriminate].
  assert (Hlt : (i < length (UI.threads st))%nat) by (eapply lookup_lt_Some, Ht).
  destruct (UI.pos t) eqn:Hpos; [| |discriminate].
  - assert (Hold : Forall (fun cb : UI.callback =>
                match cb with
                | UI.on_success _ => True
                | UI.on_error _ j => (j < length (UI.threads st))%nat
                end) (UI.after_queue st)) by exact Hframes.
    destruct (scraper (UI.calls st) (UI.target t)) as [d|e]; intros [= <-];
      unfold UI.consistent; cbn; rewrite !length_app, length_insert; cbn;
      match goal with
      | |- context [UI.called (<[i := ?t']> _)] =>
          pose proof (called_insert (UI.threads st) i t t' Ht) as Hins
      end;
      rewrite Hpos in Hins; cbn in Hins;
      (split; [lia|]); (split; [lia|]); split.
    + apply Forall_insert; [exact Hexc|]. cbn. split; [congruence | discriminate].
    + apply Forall_app. split; [exact Hold | constructor; [exact I | constructor]].
    + apply Forall_insert; [exact Hexc|]. cbn. split; [reflexivity | discriminate].
    + apply Forall_app. split; [exact Hold | constructor; [exact Hlt | constructor]].
  - intros [= <-]. unfold UI.consistent. cbn. rewrite length_insert.
    pose proof (called_insert (UI.threads st) i t
                  {| UI.target := UI.target t; UI.pos := UI.finished;
                     UI.exc := None |} Ht) as Hins.
    rewrite Hpos in Hins. cbn in Hins.
    split; [lia|]. split; [lia|]. split; [|exact Hframes].
    apply Forall_insert; [exact Hexc|]. cbn. split; [congruence | discriminate].
Qed.

Lemma consistent_mainloop st (r : result unit) st' :
  UI.consistent st -> mainloop_step st = Some (r, st') -> UI.consistent st'.
Proof.
  intros (Hcalls & Hqueue & Hexc & Hframes). unfold UI.mainloop_step.
  destruct (UI.after_queue st) as [|cb rest] eqn:Hq; [discriminate|].
  intros [= Hrun].
  set (st0 := {| UI.status_var := UI.status_var st;
                 UI.result_text := UI.result_text st;
                 UI.dialogs := UI.dialogs st; UI.after_queue := rest;
                 UI.threads := UI.threads st; UI.calls := UI.calls st |}) in Hrun.
  destruct (run_callback_frame st0 cb) as (Hth & Hc & Hqq).
  rewrite Hrun in Hth, Hc, Hqq. cbn in Hth, Hc, Hqq.
  unfold UI.consistent. rewrite Hth, Hc, Hqq.
  cbn in Hqueue. inversion Hframes; subst.
  split; [exact Hcalls|]. split; [lia|]. split; assumption.
Qed.

(** X15: in every state the front end can reach from its initial state
    by presses of buttons, steps of workers and turns of the main loop, the scraper
    has been called exactly once for every worker past its call, no more
    callbacks are pending than calls were made, [exc] is bound exactly in
    the workers inside an [except] clause, and every pending error
    callback closes over the frame of a worker that exists. *)
Theorem reachable_consistent st :
  rtc transition UI.initial st -> UI.consistent st.
Proof.
  revert st. apply rtc_ind_r.
  - unfold UI.consistent. cbn. repeat split; constructor.
  - intros st st' _ Hstep IH.
    destruct Hstep as [st p | st i st' Hw | st r st' Hm].
    + destruct (press_cases st p) as [-> | [k ->]]; [exact IH|].
      destruct (click_cases st k) as [[c ->] | ->].
      * now apply consistent_run_async.
      * exact IH.
    + exact (consistent_worker st i st' IH Hw).
    + exact (consistent_mainloop st r st' IH Hm).
Qed.

(** *** Whole runs *)

Lemma append_empty_r (s : string) : s +:+ EmptyString = s.
Proof. induction s as [|c r IH]; [reflexivity|]. now rewrite append_cons, IH. Qed.

(** X16: a run whose wrapped call returns a result that is serialized to
    the text [pretty], started with nothing pending: once the worker has
    stepped and the main loop has taken the callback, the result viewer
    holds the serialized result and nothing else, the status is
    [Finished], no dialog has been shown and the queue is empty again. *)
Theorem successful_run_displays st c (d : data) (pretty : string) :
  UI.after_queue st = [] ->
  scraper (UI.calls st) c = Ret d ->
  json_dumps d = Ret pretty ->
  let i := length (UI.threads st) in
  exists st2 st3,
    worker_step (UI._run_async st c) i = Some st2 /\
    mainloop_step st2 = Some (Ret tt, st3) /\
    UI.result_text st3 = pretty /\
    UI.status_var st3 = "Finished" /\
    UI.dialogs st3 = UI.dialogs st /\
    UI.after_queue st3 = [] /\
    UI.calls st3 = UI.calls st ++ [c] /\
    worker_step st3 i = None.
Proof.
  destruct st as [sv rt dg q th cl]. cbn. intros -> Hd Hp.
  remember (length th) as i eqn:Hlen.
  assert (Hi : forall t : UI.thread, (th ++ [t]) !! i = Some t)
    by (intros t; subst i; apply list_lookup_middle, eq_refl).
  assert (Hins : forall t t' : UI.thread, <[i := t']> (th ++ [t]) = th ++ [t']).
  { intros t t'. subst i. rewrite insert_app_r_alt by lia.
    now rewrite Nat.sub_diag. }
  unfold UI.worker_step at 1. ui_unfold. rewrite Hi. cbn. rewrite Hd.
  ui_unfold. rewrite Hins.
  eexists. eexists. split; [reflexivity|].
  unfold UI.mainloop_step. ui_unfold.
  unfold UI._handle_success, UI._display_result. rewrite Hp.
  split; [reflexivity|]. cbn. rewrite append_empty_r.
  repeat (split; [reflexivity|]).
  unfold UI.worker_step. cbn. rewrite Hi. reflexivity.
Qed.

(** X17: a run whose wrapped call raises, started with nothing pending,
    when the main loop takes the callback before the worker has left the
    [except] clause: one error dialog is shown, titled [GPlay Scraper],
    whose message is [Scraper error: ] or [Unexpected error: ] followed by
    the text of the exception, as the exception is the domain error or
    not; the status is [Error] and the result viewer is empty. *)
Theorem prompt_error_shown st c (e : exn) :
  UI.after_queue st = [] ->
  scraper (UI.calls st) c = Raise e ->
  let i := length (UI.threads st) in
  let prefix :=
    match e with
    | GPlayScraperError _ => "Scraper error: "
    | _ => "Unexpected error: "
    end in
  exists st2 st3,
    worker_step (UI._run_async st c) i = Some st2 /\
    mainloop_step st2 = Some (Ret tt, st3) /\
    UI.dialogs st3
    = UI.dialogs st ++ [UI.showerror "GPlay Scraper" (prefix +:+ str_exc e)] /\
    UI.status_var st3 = "Error" /\
    UI.result_text st3 = EmptyString /\
    UI.after_queue st3 = [].
Proof.
  destruct st as [sv rt dg q th cl]. cbn. intros -> He.
  remember (length th) as i eqn:Hlen.
  assert (Hi : forall t : UI.thread, (th ++ [t]) !! i = Some t)
    by (intros t; subst i; apply list_lookup_middle, eq_refl).
  assert (Hins : forall t t' : UI.thread, <[i := t']> (th ++ [t]) = th ++ [t']).
  { intros t t'. subst i. rewrite insert_app_r_alt by lia.
    now rewrite Nat.sub_diag. }
  unfold UI.worker_step at 1. ui_unfold. rewrite Hi. cbn. rewrite He.
  ui_unfold. rewrite Hins.
  eexists. eexists. split; [reflexivity|].
  unfold UI.mainloop_step. ui_unfold.
  unfold UI.run_callback, UI.read_exc. ui_unfold. rewrite Hi.
  split; [reflexivity|]. cbn. destruct e; repeat split.
Qed.

Lemma worker_call_returns st i t (d : data) :
  UI.threads st !! i = Some t ->
  UI.pos t = UI.at_call ->
  scraper (UI.calls st) (UI.target t) = Ret d ->
  worker_step st i
  = Some {| UI.status_var := UI.status_var st;
            UI.result_text := UI.result_text st;
            UI.dialogs := UI.dialogs st;
            UI.after_queue := UI.after_queue st ++ [UI.on_success d];
            UI.threads :=
              <[i := {| UI.target := UI.target t; UI.pos := UI.finished;
                        UI.exc := None |}]> (UI.threads st);
            UI.calls := UI.calls st ++ [UI.target t] |}.
Proof.
  intros Ht Hpos Hd. unfold UI.worker_step. rewrite Ht, Hpos, Hd. reflexivity.
Qed.

Lemma mainloop_success st (d : data) (pretty : string)
    (rest : list UI.callback) :
  UI.after_queue st = UI.on_success d :: rest ->
  json_dumps d = Ret pretty ->
  mainloop_step st
  = Some (Ret tt,
          {| UI.status_var := "Finished";
             UI.result_text := pretty +:+ UI.result_text st;
             UI.dialogs := UI.dialogs st;
             UI.after_queue := rest;
             UI.threads := UI.threads st;
             UI.calls := UI.calls st |}).
Proof.
  intros Hq Hp. unfold UI.mainloop_step. rewrite Hq.
  unfold UI.run_callback, UI._handle_success, UI._display_result.
  cbn [UI.status_var UI.result_text UI.dialogs UI.after_queue UI.threads
       UI.calls].
  rewrite Hp. reflexivity.
Qed.

(** X18: two runs started one after the other before either worker has
    stepped, both of whose calls return results that are serialized, to
    the texts [pretty1] and [pretty2]: when the workers have stepped and
    the main loop has taken both callbacks, the result viewer holds both
    serialized results, the later delivered first, and the status is
    [Finished]. *)
Theorem overlapping_runs_accumulate st c1 c2 (d1 d2 : data)
    (pretty1 pretty2 : string) :
  UI.after_queue st = [] ->
  scraper (UI.calls st) c1 = Ret d1 ->
  scraper (UI.calls st ++ [c1]) c2 = Ret d2 ->
  json_dumps d1 = Ret pretty1 ->
  json_dumps d2 = Ret pretty2 ->
  let i := length (UI.threads st) in
  exists st1 st2 st3 st4,
    worker_step (UI._run_async (UI._run_async st c1) c2) i = Some st1 /\
    worker_step st1 (S i) = Some st2 /\
    mainloop_step st2 = Some (Ret tt, st3) /\
    mainloop_step st3 = Some (Ret tt, st4) /\
    UI.result_text st4 = pretty2 +:+ pretty1 /\
    UI.status_var st4 = "Finished" /\
    UI.calls st4 = UI.calls st ++ [c1; c2] /\
    UI.after_queue st4 = [].
Proof.
  intros Hq Hd1 Hd2 Hp1 Hp2 i. subst i.
  remember (UI.threads st) as th eqn:Hth.
  remember (length th) as i eqn:Hi.
  pose (done := fun c : call =>
          {| UI.target := c; UI.pos := UI.finished; UI.exc := None |}).
  assert (H1 : ((th ++ [UI.fresh c1]) ++ [UI.fresh c2]) !! i = Some (UI.fresh c1)).
  { subst i. rewrite <- app_assoc. apply list_lookup_middle, eq_refl. }
  assert (I1 : <[i := done c1]> ((th ++ [UI.fresh c1]) ++ [UI.fresh c2])
               = th ++ [done c1; UI.fresh c2]).
  { subst i. rewrite <- app_assoc, insert_app_r_alt by lia.
    now rewrite Nat.sub_diag. }
  assert (H2 : (th ++ [done c1; UI.fresh c2]) !! S i = Some (UI.fresh c2)).
  { subst i. rewrite lookup_app_r by lia.
    now replace (S (length th) - length th)%nat with 1%nat by lia. }
  assert (I2 : <[S i := done c2]> (th ++ [done c1; UI.fresh c2])
               = th ++ [done c1; done c2]).
  { subst i. rewrite insert_app_r_alt by lia.
    now replace (S (length th) - length th)%nat with 1%nat by lia. }
  pose (st1 := {| UI.status_var := "Running..."; UI.result_text := EmptyString;
                  UI.dialogs := UI.dialogs st;
                  UI.after_queue := [UI.on_success d1];
                  UI.threads := th ++ [done c1; UI.fresh c2];
                  UI.calls := UI.calls st ++ [c1] |} : @UI.ui data).
  pose (st2 := {| UI.status_var := "Running..."; UI.result_text := EmptyString;
                  UI.dialogs := UI.dialogs st;
                  UI.after_queue := [UI.on_success d1; UI.on_success d2];
                  UI.threads := th ++ [done c1; done c2];
                  UI.calls := (UI.calls st ++ [c1]) ++ [c2] |} : @UI.ui data).
  pose (st3 := {| UI.status_var := "Finished";
                  UI.result_text := pretty1 +:+ EmptyString;
                  UI.dialogs := UI.dialogs st;
                  UI.after_queue := [UI.on_success d2];
                  UI.threads := th ++ [done c1; done c2];
                  UI.calls := (UI.calls st ++ [c1]) ++ [c2] |} : @UI.ui data).
  pose (st4 := {| UI.status_var := "Finished";
                  UI.result_text :=
                    pretty2 +:+ (pretty1 +:+ EmptyString);
                  UI.dialogs := UI.dialogs st;
                  UI.after_queue := [];
                  UI.threads := th ++ [done c1; done c2];
                  UI.calls := (UI.calls st ++ [c1]) ++ [c2] |} : @UI.ui data).
  cbv [done UI.fresh] in *. clear done.
  exists st1, st2, st3, st4.
  split.
  { rewrite (worker_call_returns _ i (UI.fresh c1) d1);
      [|cbn [UI._run_async UI.start_thread UI._clear_results UI._set_status
             UI.threads]; rewrite <- Hth; exact H1
       |reflexivity|exact Hd1].
    cbn [UI._run_async UI.start_thread UI._clear_results UI._set_status
         UI.threads UI.status_var UI.result_text UI.dialogs UI.after_queue
         UI.calls UI.target].
    cbv [UI.fresh]. cbn [UI.target].
    unfold st1. rewrite <- Hth, Hq, I1. reflexivity. }
  split.
  { rewrite (worker_call_returns st1 (S i) _ d2 H2 eq_refl Hd2).
    unfold st1, st2.
    cbn [UI.threads UI.status_var UI.result_text UI.dialogs UI.after_queue
         UI.calls UI.target].
    cbv [UI.fresh]. cbn [UI.target].
    rewrite I2. reflexivity. }
  split; [exact (mainloop_success st2 d1 pretty1 [UI.on_success d2] eq_refl Hp1)|].
  split; [exact (mainloop_success st3 d2 pretty2 [] eq_refl Hp2)|].
  unfold st4. cbn [UI.result_text UI.status_var UI.calls UI.after_queue].
  rewrite append_empty_r, <- app_assoc. repeat split.
Qed.

End FrontEndLaws.

(* ================================================================== *)
(** * The fields parameter across the two front ends *)
(* ================================================================== *)

Section FieldsLaws.

Context {data : Type}.
Variable cfg : Config.
Variable scraper : list call -> call -> result data.
Variable json_dumps : @JsonDict data -> string.
Variable json_refuses : data -> option exn.
Variable intvar_get : string -> result Z.

Abbreviation dispatch := (dispatch cfg scraper json_dumps json_refuses).

Implicit Types (args : gmap string string) (log : list call) (a : action).

Lemma required_identifier_not_fields a : required_identifier a <> "fields".
Proof. destruct a; discriminate. Qed.

(** X19: the fields parameter selects the operation and nothing else: two
    requests for the same action that differ in the fields parameter only
    cause calls with the same identifier, language, country, count, sort
    order and asset size. *)
Theorem fields_change_only_the_operation a args args' log log' :
  lower (the (args !! "action")) = action_name a ->
  present args (required_identifier a) ->
  (forall k : string, k <> "fields" -> args !! k = args' !! k) ->
  exists c c',
    snd (dispatch args log) = log ++ [c] /\
    snd (dispatch args' log') = log' ++ [c'] /\
    call_action c = call_action c' /\
    call_identifier c = call_identifier c' /\
    call_lang c = call_lang c' /\
    call_country c = call_country c' /\
    call_count c = call_count c' /\
    call_sort c = call_sort c' /\
    call_assets c = call_assets c'.
Proof.
  intros Ha Hid Hsame.
  assert (Ha' : lower (the (args' !! "action")) = action_name a)
    by (rewrite <- (Hsame "action") by discriminate; exact Ha).
  assert (Hkey : args !! required_identifier a = args' !! required_identifier a)
    by apply Hsame, required_identifier_not_fields.
  assert (Hf : falsy (args !! required_identifier a) = false)
    by (destruct Hid as (v & -> & Hne); cbn; apply truthy_true in Hne;
        now rewrite Hne).
  assert (Hf' : falsy (args' !! required_identifier a) = false)
    by (rewrite <- Hkey; exact Hf).
  destruct (handler_of_present cfg scraper a args log Hf)
    as (c & Hrun & Hact & Hident & Hlang & Hcountry & Hcount & Hsort & Hassets & _).
  destruct (handler_of_present cfg scraper a args' log' Hf')
    as (c' & Hrun' & Hact' & Hident' & Hlang' & Hcountry' & Hcount' & Hsort'
        & Hassets' & _).
  exists c, c'.
  rewrite (dispatch_known cfg scraper json_dumps json_refuses a args log Ha), Hrun.
  rewrite (dispatch_known cfg scraper json_dumps json_refuses a args' log' Ha'), Hrun'.
  rewrite !respond_log.
  rewrite Hact, Hact', Hident, Hident', Hlang, Hlang', Hcountry, Hcountry',
    Hcount, Hcount', Hsort, Hsort', Hassets, Hassets', Hkey.
  unfold get_default, get_or_None, action_count.
  rewrite <- !(Hsame "lang"), <- !(Hsame "country"), <- !(Hsame "sort"),
    <- !(Hsame "assets"), <- !(Hsame "count") by discriminate.
  repeat split.
Qed.

(** X20: in the front end a fields text of commas and white space only,
    the empty text included, makes a press of a Get Fields button start
    no worker and no call, where the endpoint runs the full analysis.
    The button of the App tab shows the dialog; the buttons of the other
    tabs show the dialog when the count of the tab reads as an integer,
    and otherwise raise the exception of the read and show nothing. *)
Theorem blank_fields_text_shows_dialog (st : @UI.ui data) (p : UI.press)
    (raw : string) :
  UI.press_fields_text p = Some raw ->
  (forall ch, occurs ch raw -> ch = ","%char \/ isspace ch = true) ->
  UI.threads (snd (UI.on_press intvar_get st p)) = UI.threads st /\
  UI.calls (snd (UI.on_press intvar_get st p)) = UI.calls st /\
  match UI.count_text p with
  | None =>
      UI.on_press intvar_get st p = (Ret tt, UI.show st UI.fields_required)
  | Some n =>
      match intvar_get n with
      | Ret _ =>
          UI.on_press intvar_get st p = (Ret tt, UI.show st UI.fields_required)
      | Raise e => UI.on_press intvar_get st p = (Raise e, st)
      end
  end.
Proof.
  intros Hf Hblank. apply split_fields_blank in Hblank.
  destruct p; cbn [UI.press_fields_text] in Hf; try discriminate;
    injection Hf as ->; unfold UI.on_press; cbn [UI.read_press UI.count_text];
    try match goal with
        | |- context [intvar_get ?n] => destruct (intvar_get n) as [z|e]
        end;
    cbn [UI.on_click UI.on_get_fields fst snd]; rewrite ?Hblank;
    repeat split.
Qed.

End FieldsLaws.

(* ================================================================== *)
(** * The further properties on the stub service *)
(* ================================================================== *)

Section LawsOnStub.

Abbreviation run := (dispatch Stub.config Stub.scraper Stub.json_dumps Stub.json_refuses).
Abbreviation serve := (handler Stub.config Stub.scraper Stub.json_dumps Stub.json_refuses).

Lemma parse_fields_join_witness :
  Forall (fun f => f <> EmptyString /\ strip f = f /\ ~ occurs "," f)
    ["title"; "score"; "title"] /\
  _parse_fields (Some (join "," ["title"; "score"; "title"]))
  = ["title"; "score"; "title"].
Proof.
  assert (H : Forall (fun f => f <> EmptyString /\ strip f = f /\ ~ occurs "," f)
                ["title"; "score"; "title"]).
  { repeat constructor; try discriminate;
      simpl; intros Hocc; repeat destruct Hocc as [Hocc|Hocc]; discriminate || exact Hocc. }
  split; [exact H | exact (parse_fields_join _ H)].
Defined.

Lemma response_headers_witness :
  let request :=
    {| method := "GET"; args := Stub.query [("action", "nothing")] |} in
  exists resp log',
    serve request [] = (Ret resp, log') /\
    headers resp !! "Access-Control-Allow-Origin" = Some "*" /\
    headers resp !! "Content-Type" = Some "application/json".
Proof.
  intros request.
  assert (H : serve request []
              = (Ret (built Stub.json_dumps 400
                        (error_payload "Unsupported action 'nothing'.")), []))
    by reflexivity.
  eexists _, _. split; [exact H|].
  destruct (response_headers Stub.config Stub.scraper Stub.json_dumps Stub.json_refuses
              request [] _ _ H) as (Ho & Hc & _).
  split; [exact Ho | exact Hc].
Defined.

Lemma unread_parameters_ignored_witness :
  let args := Stub.query [("action", "app"); ("appId", "com.whatsapp")] in
  let args' := Stub.query [("action", "APP"); ("appId", "com.whatsapp");
                           ("count", "7"); ("sort", "RATING"); ("page", "2")] in
  run args [] = run args' [].
Proof.
  intros args args'.
  apply (unread_parameters_ignored Stub.config Stub.scraper Stub.json_dumps Stub.json_refuses App).
  - reflexivity.
  - reflexivity.
  - intros k Hk. apply list_elem_of_In in Hk. cbn in Hk.
    repeat destruct Hk as [<-|Hk]; try reflexivity; try destruct Hk.
Defined.

Lemma identifier_forwarded_verbatim_witness :
  let args := Stub.query [("action", "search"); ("query", " Maps & Navigation ")] in
  exists c,
    snd (run args []) = [] ++ [c] /\
    call_action c = Search /\
    call_identifier c = " Maps & Navigation ".
Proof.
  intros args.
  apply (identifier_forwarded_verbatim Stub.config Stub.scraper Stub.json_dumps Stub.json_refuses
           Search args []).
  - reflexivity.
  - reflexivity.
  - discriminate.
Defined.

Lemma default_count_forwarded_witness :
  let args := Stub.query [("action", "developer"); ("developerId", "Google LLC");
                          ("count", "2.5")] in
  exists c,
    snd (run args []) = [] ++ [c] /\
    call_action c = Developer /\
    call_count c = Some 25.
Proof.
  intros args.
  apply (default_count_forwarded Stub.config Stub.scraper Stub.json_dumps Stub.json_refuses
           Developer args []).
  - reflexivity.
  - exists "Google LLC". split; [reflexivity | discriminate].
  - right. exists "2.5". split; [reflexivity|]. right. eexists. reflexivity.
Defined.

Lemma blank_fields_select_analysis_witness :
  let args := Stub.query [("action", "app"); ("appId", "com.whatsapp");
                          ("fields", " , ,, ")] in
  exists c,
    snd (run args []) = [] ++ [c] /\
    call_action c = App /\
    is_analyze c = true /\
    call_fields c = None.
Proof.
  intros args.
  apply (blank_fields_select_analysis Stub.config Stub.scraper Stub.json_dumps Stub.json_refuses
           App args [] " , ,, ").
  - reflexivity.
  - exists "com.whatsapp". split; [reflexivity | discriminate].
  - reflexivity.
  - intros ch Hch. simpl in Hch.
    repeat destruct Hch as [<-|Hch]; try (now left); try (now right);
      try destruct Hch.
Defined.

Lemma parse_int_rejects_witness :
  _parse_int (Some "2.5") 100 = Ret 100.
Proof.
  apply (parse_int_rejects "2.5" 100 ".").
  - simpl. tauto.
  - reflexivity.
  - reflexivity.
  - discriminate.
  - discriminate.
  - discriminate.
Defined.

Lemma parse_int_padding_witness :
  _parse_int (Some (" " +:+ "20" +:+ String (ascii_of_N 10) EmptyString)) 100
  = _parse_int (Some "20") 100.
Proof.
  apply parse_int_padding.
  - intros c Hc. simpl in Hc. destruct Hc as [<-|[]]. reflexivity.
  - intros c Hc. simpl in Hc. destruct Hc as [<-|[]]. reflexivity.
Defined.

Lemma worker_keeps_presentation_witness :
  exists st',
    UI.worker_step Stub.scraper Stub.clicked 0 = Some st' /\
    UI.status_var st' = "Running..." /\
    UI.dialogs st' = [] /\
    UI.calls st' = [app_analyze "missing" "en" "us" None] /\
    UI.after_queue st' = [UI.on_error "Scraper error: " 0].
Proof.
  eexists. split; [reflexivity|].
  destruct (worker_keeps_presentation Stub.scraper Stub.clicked 0 _ eq_refl)
    as (Hs & _ & Hd & _ & t & Ht & Hrest).
  injection Ht as <-. destruct Hrest as [Hc Hq].
  split; [exact Hs|]. split; [exact Hd|]. split; [exact Hc | exact Hq].
Defined.

Lemma mainloop_keeps_workers_witness :
  exists st1 st2,
    UI.worker_step Stub.scraper Stub.clicked 0 = Some st1 /\
    UI.mainloop_step Stub.pretty st1 = Some (Ret tt, st2) /\
    UI.calls st2 = UI.calls st1 /\
    UI.threads st2 = UI.threads st1 /\
    UI.after_queue st2 = [].
Proof.
  eexists. eexists. split; [reflexivity|]. split; [reflexivity|].
  match goal with
  | |- UI.calls ?s2 = UI.calls ?s1 /\ _ =>
      destruct (mainloop_keeps_workers Stub.pretty s1 (Ret tt) s2 eq_refl)
        as (Hc & Ht & cb & Hq & _)
  end.
  split; [exact Hc|]. split; [exact Ht|]. reflexivity.
Defined.

Lemma reachable_consistent_witness :
  rtc (UI.transition Stub.scraper Stub.pretty Stub.intvar_get)
    UI.initial Stub.clicked /\
  UI.consistent Stub.clicked.
Proof.
  assert (H : rtc (UI.transition Stub.scraper Stub.pretty Stub.intvar_get)
                UI.initial Stub.clicked).
  { eapply rtc_l; [|apply rtc_once].
    - exact (UI.transition_press Stub.scraper Stub.pretty Stub.intvar_get
               UI.initial (UI.press_search_apps "maps" "ten" "en" "us")).
    - exact (UI.transition_press Stub.scraper Stub.pretty Stub.intvar_get
               UI.initial (UI.press_analyze_app "missing" "en" "us" "")). }
  split; [exact H|].
  exact (reachable_consistent Stub.scraper Stub.pretty Stub.intvar_get
           Stub.clicked H).
Defined.

Lemma successful_run_displays_witness :
  let c := search_analyze "productivity" 5 "en" "us" in
  exists st2 st3,
    UI.worker_step Stub.scraper (UI._run_async UI.initial c) 0 = Some st2 /\
    UI.mainloop_step Stub.pretty st2 = Some (Ret tt, st3) /\
    UI.result_text st3 = "productivity" /\
    UI.status_var st3 = "Finished".
Proof.
  intros c.
  destruct (successful_run_displays Stub.scraper Stub.pretty UI.initial c
              "productivity" "productivity" eq_refl eq_refl eq_refl)
    as (st2 & st3 & H1 & H2 & H3 & H4 & _).
  exists st2, st3. repeat split; assumption.
Defined.

Lemma prompt_error_shown_witness :
  let c := app_analyze "crash" "en" "us" None in
  exists st2 st3,
    UI.worker_step Stub.scraper (UI._run_async UI.initial c) 0 = Some st2 /\
    UI.mainloop_step Stub.pretty st2 = Some (Ret tt, st3) /\
    UI.dialogs st3
    = [UI.showerror "GPlay Scraper" "Unexpected error: connection reset"] /\
    UI.status_var st3 = "Error".
Proof.
  intros c.
  destruct (prompt_error_shown Stub.scraper Stub.pretty UI.initial c
              (Exception "connection reset") eq_refl eq_refl)
    as (st2 & st3 & H1 & H2 & H3 & H4 & _).
  exists st2, st3. repeat split; assumption.
Defined.

Lemma overlapping_runs_accumulate_witness :
  let c1 := app_analyze "com.whatsapp" "en" "us" None in
  let c2 := search_analyze "productivity" 5 "en" "us" in
  exists st1 st2 st3 st4,
    UI.worker_step Stub.scraper
      (UI._run_async (UI._run_async UI.initial c1) c2) 0 = Some st1 /\
    UI.worker_step Stub.scraper st1 1 = Some st2 /\
    UI.mainloop_step Stub.pretty st2 = Some (Ret tt, st3) /\
    UI.mainloop_step Stub.pretty st3 = Some (Ret tt, st4) /\
    UI.result_text st4 = "productivitycom.whatsapp".
Proof.
  intros c1 c2.
  destruct (overlapping_runs_accumulate Stub.scraper Stub.pretty UI.initial
              c1 c2 "com.whatsapp" "productivity" "com.whatsapp" "productivity"
              eq_refl eq_refl eq_refl eq_refl eq_refl)
    as (st1 & st2 & st3 & st4 & H1 & H2 & H3 & H4 & H5 & _).
  exists st1, st2, st3, st4. repeat split; assumption.
Defined.

Lemma fields_change_only_the_operation_witness :
  let args := Stub.query [("action", "reviews"); ("appId", "com.whatsapp");
                          ("count", "7"); ("sort", "RATING")] in
  let args' := <["fields" := "score, text"]> args in
  exists c c',
    snd (run args []) = [] ++ [c] /\
    snd (run args' []) = [] ++ [c'] /\
    is_analyze c = true /\ is_analyze c' = false /\
    call_identifier c = call_identifier c' /\
    call_count c = call_count c' /\
    call_sort c = call_sort c'.
Proof.
  intros args args'.
  destruct (fields_change_only_the_operation Stub.config Stub.scraper
              Stub.json_dumps Stub.json_refuses Reviews args args' [] [])
    as (c & c' & Hc & Hc' & _ & Hid & _ & _ & Hcount & Hsort & _).
  - reflexivity.
  - exists "com.whatsapp". split; [reflexivity | discriminate].
  - intros k Hk. unfold args'. now rewrite lookup_insert_ne.
  - exists c, c'. split; [exact Hc|]. split; [exact Hc'|].
    assert (Ec : c = reviews_analyze "com.whatsapp" 7 "en" "us" "RATING")
      by (vm_compute in Hc; congruence).
    assert (Ec' : c' = reviews_get_fields "com.whatsapp" ["score"; "text"] 7
                         "en" "us" "RATING")
      by (vm_compute in Hc'; congruence).
    split; [now rewrite Ec|]. split; [now rewrite Ec'|].
    split; [exact Hid|]. split; [exact Hcount | exact Hsort].
Defined.

Lemma blank_fields_text_shows_dialog_witness :
  let p := UI.press_reviews_fields "com.whatsapp" ", ," "20" "en" "us" "NEWEST" in
  let p' := UI.press_reviews_fields "com.whatsapp" ", ," "ten" "en" "us" "NEWEST" in
  UI.on_press Stub.intvar_get (UI.initial (data := string)) p
  = (Ret tt, UI.show UI.initial UI.fields_required) /\
  UI.on_press Stub.intvar_get (UI.initial (data := string)) p'
  = (Raise (Exception "expected floating-point number but got ten"), UI.initial).
Proof.
  intros p p'.
  assert (Hblank : forall ch, occurs ch ", ," -> ch = ","%char \/ isspace ch = true).
  { intros ch Hch. simpl in Hch.
    repeat destruct Hch as [<-|Hch]; try (now left); try (now right);
      try destruct Hch. }
  split.
  - destruct (blank_fields_text_shows_dialog Stub.intvar_get
                (UI.initial (data := string)) p ", ," eq_refl Hblank)
      as (_ & _ & H).
    exact H.
  - destruct (blank_fields_text_shows_dialog Stub.intvar_get
                (UI.initial (data := string)) p' ", ," eq_refl Hblank)
      as (_ & _ & H).
    exact H.
Defined.

(** A press of Search Apps while the spin box holds a text that is not a
    number: the read of the count raises, and the front end is as it
    was. *)
Example press_with_unread_count :
  UI.on_press Stub.intvar_get (UI.initial (data := string))
    (UI.press_search_apps "maps" "ten" "en" "us")
  = (Raise (Exception "expected floating-point number but got ten"), UI.initial).
Proof. reflexivity. Qed.

End LawsOnStub.
